(** * spotify-playlist-splitter: metadata feature builders, k-means export
      and audio descriptors

    A shallow embedding of [src/ml/train_kmeans.py] and of the descriptor
    methods of [src/utils/SpotifyFeaturesDSP.py], with the properties the
    specification states about them.

    Conventions.
    - Python values read from JSON are the type [json]; a Python [dict] read
      from JSON is an association list in insertion order, a feature map
      built by the code is a [gmap string float].
    - A Python exception is the [Raise] arm of [result]; [try]/[except] is
      [try_except].
    - A Python [float] is an IEEE binary64 value ([spec_float] with precision
      53 and maximal exponent 1024), computed with the Standard Library's
      executable specification of IEEE arithmetic.
    - The descriptor methods are written once over a numeric interface [Num]
      and read in two ways: in binary64 ([b64_num]) and in exact real
      arithmetic ([exact_num]).  Calls into librosa and scikit-learn are
      fields of the records [Librosa] and [Sklearn]. *)

From Stdlib Require Import ZArith List Bool String Ascii Lia Reals Lra.
From Stdlib Require Import Floats.SpecFloat.
From stdpp Require Import gmap strings.
Import ListNotations.

Set Warnings "-register-all".

Local Open Scope string_scope.
Local Open Scope Z_scope.

(* ===================================================================== *)
(** * Part I: definitions                                                  *)
(* ===================================================================== *)

(** ** Binary64 arithmetic *)

Module B64.

Definition prec : Z := 53.
Definition emax : Z := 1024.

Definition float : Type := spec_float.

(** [float(n)] for a Python integer that fits: round to nearest, ties to
    even.  Too large an integer gives an infinity here; [py_float] below
    turns that into [OverflowError]. *)
Definition of_Z (n : Z) : float := binary_normalize prec emax n 0 false.

Definition add : float -> float -> float := SFadd prec emax.
Definition sub : float -> float -> float := SFsub prec emax.
Definition mul : float -> float -> float := SFmul prec emax.
Definition div : float -> float -> float := SFdiv prec emax.
Definition sqrt : float -> float := SFsqrt prec emax.
Definition abs : float -> float := SFabs.
Definition ltb : float -> float -> bool := SFltb.
Definition leb : float -> float -> bool := SFleb.
Definition eqb : float -> float -> bool := SFeqb.

Definition zero : float := S754_zero false.
Definition one : float := of_Z 1.

(** A decimal literal [m]e[e] of the source, such as [1e-12] = [of_dec 1 (-12)]
    and [6.35] = [of_dec 635 (-2)].  For the literals of this program [m] and
    the power of ten are exact in binary64, so one correctly rounded
    division gives the double nearest to the decimal, as Python's parser
    does. *)
Definition of_dec (m e : Z) : float :=
  if 0 <=? e then of_Z (m * 10 ^ e) else div (of_Z m) (of_Z (10 ^ (- e))).

Definition is_nan (x : float) : bool :=
  match x with S754_nan => true | _ => false end.

Definition is_inf (x : float) : bool :=
  match x with S754_infinity _ => true | _ => false end.

(** Neither an infinity nor a NaN. *)
Definition is_finite (x : float) : bool :=
  match x with S754_zero _ | S754_finite _ _ _ => true | _ => false end.

(** A representable binary64 value: the mantissa and exponent of a finite
    number are in canonical form. *)
Definition valid (x : float) : bool := valid_binary prec emax x.

(** A zero, a finite number or an infinity with sign bit [s]. *)
Definition has_sign (s : bool) (x : float) : Prop :=
  match x with
  | S754_nan => False
  | S754_zero s' | S754_infinity s' | S754_finite s' _ _ => s' = s
  end.

End B64.

(** ** Python values, exceptions, and the runtime *)

Module Py.

Inductive exn : Type :=
  | AttributeError
  | TypeError
  | ValueError
  | OverflowError.

Inductive result (A : Type) : Type :=
  | Ok (a : A)
  | Raise (e : exn).

Arguments Ok {A} a.
Arguments Raise {A} e.

Definition bind {A B : Type} (m : result A) (k : A -> result B) : result B :=
  match m with
  | Ok a => k a
  | Raise e => Raise e
  end.

(** [try: body except Exception: handler]. *)
Definition try_except {A : Type} (body : result A) (handler : exn -> result A)
  : result A :=
  match body with
  | Ok a => Ok a
  | Raise e => handler e
  end.

Definition is_ok {A : Type} (m : result A) : bool :=
  match m with Ok _ => true | Raise _ => false end.

(** The values [json.loads] produces.  An object keeps its members in
    insertion order, under distinct keys. *)
Inductive json : Type :=
  | JNull
  | JBool (b : bool)
  | JInt (n : Z)
  | JFloat (f : B64.float)
  | JStr (s : string)
  | JList (l : list json)
  | JDict (d : list (string * json)).

(** What the interpreter does and the repository does not define: parsing
    a string as a float ([float("0.5")], [None] when Python raises
    [ValueError]) and printing a value that is not a string ([str(v)] in an
    f-string). *)
Record Runtime : Type := {
  float_of_str : string -> option B64.float;
  repr : json -> string
}.

End Py.

Export Py.

Declare Scope py_scope.
Delimit Scope py_scope with py.
Notation "'let!' x := e1 'in' e2" := (Py.bind e1 (fun x => e2))
  (at level 10, x pattern, e1 at level 100, e2 at level 200) : py_scope.
Local Open Scope py_scope.

Module PyOps.

Fixpoint foldM {A S : Type} (f : S -> A -> result S) (s : S) (l : list A)
  : result S :=
  match l with
  | [] => Ok s
  | a :: t => let! s' := f s a in foldM f s' t
  end.

Fixpoint mapM {A B : Type} (f : A -> result B) (l : list A) : result (list B) :=
  match l with
  | [] => Ok []
  | a :: t => let! b := f a in let! bs := mapM f t in Ok (b :: bs)
  end.

(** [d.get(k)] on a dict: the value, or [None]. *)
Fixpoint dict_get (d : list (string * json)) (k : string) : json :=
  match d with
  | [] => JNull
  | (k', v) :: d' => if String.eqb k' k then v else dict_get d' k
  end.

(** [v.get(k)]: only a dict has the method. *)
Definition py_get (v : json) (k : string) : result json :=
  match v with
  | JDict d => Ok (dict_get d k)
  | _ => Raise AttributeError
  end.

Definition is_dict (v : json) : bool :=
  match v with JDict _ => true | _ => false end.

Definition is_None (v : json) : bool :=
  match v with JNull => true | _ => false end.

(** [d.items()] of a dict. *)
Definition items (v : json) : list (string * json) :=
  match v with JDict d => d | _ => [] end.

(** Truth value of a Python object, as [or] tests it. *)
Definition truthy (v : json) : bool :=
  match v with
  | JNull => false
  | JBool b => b
  | JInt n => negb (n =? 0)
  | JFloat f => negb (B64.eqb f B64.zero)
  | JStr s => negb (String.eqb s "")
  | JList l => match l with [] => false | _ => true end
  | JDict d => match d with [] => false | _ => true end
  end.

(** [float(x)]. *)
Definition py_float (rt : Runtime) (x : json) : result B64.float :=
  match x with
  | JNull => Raise TypeError
  | JBool b => Ok (if b then B64.one else B64.zero)
  | JInt n =>
      let f := B64.of_Z n in
      if B64.is_inf f then Raise OverflowError else Ok f
  | JFloat f => Ok f
  | JStr s =>
      match float_of_str rt s with
      | Some f => Ok f
      | None => Raise ValueError
      end
  | JList _ | JDict _ => Raise TypeError
  end.

(** [float(x)] raises: [x] is [None], not a number, a string that does not
    parse, or an integer too large for a float. *)
Definition not_numeric (rt : Runtime) (x : json) : bool :=
  negb (is_ok (py_float rt x)).

(** [f"{v}"]. *)
Definition format_value (rt : Runtime) (v : json) : string :=
  match v with
  | JStr s => s
  | _ => repr rt v
  end.

End PyOps.

Export PyOps.

(** ** [src/ml/train_kmeans.py] *)

Module TrainKMeans.

Definition safe_num (rt : Runtime) (x : json) : result (option B64.float) :=
  try_except
    (if is_None x then Ok None
     else let! f := py_float rt x in Ok (Some f))
    (fun _ => Ok None).

Definition ab_flag : string := "ab__has_acousticbrainz".

(** [f"ab__{clf_name}__{cls_name}"]. *)
Definition ab_key (clf_name cls_name : string) : string :=
  "ab__" +:+ clf_name +:+ "__" +:+ cls_name.

(** Body of [for cls_name, p in probs.items()]. *)
Definition add_prob (rt : Runtime) (clf_name : string)
    (out : gmap string B64.float) (item : string * json)
  : result (gmap string B64.float) :=
  let '(cls_name, p) := item in
  let! p := safe_num rt p in
  match p with
  | None => Ok out
  | Some p => Ok (<[ab_key clf_name cls_name := p]> out)
  end.

(** Body of [for clf_name, clf_obj in high.items()]. *)
Definition add_classifier (rt : Runtime)
    (out : gmap string B64.float) (item : string * json)
  : result (gmap string B64.float) :=
  let '(clf_name, clf_obj) := item in
  if negb (is_dict clf_obj) then Ok out
  else
    let! a := py_get clf_obj "all" in
    let! probs := (if truthy a then Ok a else py_get clf_obj "probabilities") in
    if is_dict probs then foldM (add_prob rt clf_name) out (items probs)
    else
      let! val := py_get clf_obj "value" in
      let! pj := py_get clf_obj "probability" in
      let! p := safe_num rt pj in
      match p with
      | Some p =>
          if negb (is_None val)
          then Ok (<[ab_key clf_name (format_value rt val) := p]> out)
          else Ok out
      | None => Ok out
      end.

(** Lines 29-30: [ab], the value at [track["brainz"]["acousticHighLevel"]]. *)
Definition acoustic_block (track : json) : result json :=
  let! b := py_get track "brainz" in
  let brainz := if truthy b then b else JDict [] in
  py_get brainz "acousticHighLevel".

Definition extract_ab_features (rt : Runtime) (track : json)
  : result (gmap string B64.float) :=
  let! ab := acoustic_block track in
  if negb (is_dict ab) then Ok ∅
  else
    let! h := py_get ab "highlevel" in
    let high := if is_dict h then h else ab in
    let! out := foldM (add_classifier rt) ∅ (items high) in
    Ok (<[ab_flag := B64.one]> out).

Definition sp_names : list string :=
  ["energy"; "valence"; "danceability"; "tempo"; "popularity"; "year"].

Definition sp_key (k : string) : string := "sp__" +:+ k.
Definition sp_has_key (k : string) : string := "sp__has_" +:+ k.

(** Body of [for k in [...]]. *)
Definition add_attribute (rt : Runtime) (track : json)
    (out : gmap string B64.float) (k : string)
  : result (gmap string B64.float) :=
  let! x := py_get track k in
  let! v := safe_num rt x in
  let out := <[sp_key k := match v with None => B64.zero | Some v => v end]> out in
  let out := <[sp_has_key k := match v with None => B64.zero | Some _ => B64.one end]> out in
  Ok out.

Definition extract_spotify_features (rt : Runtime) (track : json)
  : result (gmap string B64.float) :=
  foldM (add_attribute rt track) ∅ sp_names.

(** [f.update(g)]: the entries of [g] win. *)
Definition dict_update (f g : gmap string B64.float) : gmap string B64.float :=
  g ∪ f.

Definition featurize_track (rt : Runtime) (track : json)
  : result (gmap string B64.float) :=
  let f : gmap string B64.float := ∅ in
  let! sp := extract_spotify_features rt track in
  let f := dict_update f sp in
  let! ab := extract_ab_features rt track in
  let f := dict_update f ab in
  Ok f.

(** The scikit-learn and [random] calls of [main]: a matrix is the list of
    its rows. *)
Record Sklearn : Type := {
  dv_fit_transform : list (gmap string B64.float) -> list (list B64.float);
  dv_feature_names : list (gmap string B64.float) -> list string;
  scaler_fit_transform : list (list B64.float) -> list (list B64.float);
  scaler_scale : list (list B64.float) -> list B64.float;
  km_fit_predict : Z -> list (list B64.float) -> result (list Z);
  km_cluster_centers : Z -> list (list B64.float) -> list (list B64.float);
  random_sample : nat -> nat -> list nat;
  silhouette_score : list (list B64.float) -> list Z -> result B64.float
}.

Record Args : Type := {
  arg_k : Z;
  arg_silhouette_sample : Z
}.

Record Assignment : Type := {
  spotifyId : json;
  name : json;
  artists : json;
  cluster : Z
}.

Record Model : Type := {
  schema_version : Z;
  model_k : Z;
  feature_names : list string;
  scale : list B64.float;
  centroids : list (list B64.float);
  silhouette_sample : option B64.float
}.

(** [a[idx]] for a list of indices. *)
Definition fancy_index {A : Type} (d : A) (a : list A) (idx : list nat) : list A :=
  map (fun i => nth i a d) idx.

(** Lines 113-122: the sampled silhouette. *)
Definition sampled_silhouette (sk : Sklearn) (args : Args)
    (Xs : list (list B64.float)) (labels : list Z) : result (option B64.float) :=
  let n := length Xs in
  let sample_n := Z.min (arg_silhouette_sample args) (Z.of_nat n) in
  let sil : option B64.float := None in
  if (50 <=? sample_n) && (2 <=? arg_k args) then
    let idx := random_sample sk n (Z.to_nat sample_n) in
    try_except
      (let! s := silhouette_score sk (fancy_index [] Xs idx) (fancy_index 0 labels idx) in Ok (Some s))
      (fun _ => Ok None)
  else Ok sil.

(** Lines 124-132: one record per pair of [zip(tracks, labels)]. *)
Definition make_assignment (tl : json * Z) : result Assignment :=
  let '(t, lab) := tl in
  let! i := py_get t "id" in
  let! n := py_get t "name" in
  let! a := py_get t "artists" in
  Ok {| spotifyId := i; name := n; artists := a; cluster := lab |}.

(** [main], from the parsed input document on; the two documents it writes
    are its result. *)
Definition main (sk : Sklearn) (rt : Runtime) (args : Args) (doc : json)
  : result (list Assignment * Model) :=
  match doc with
  | JList tracks =>
      let! feat_dicts := mapM (featurize_track rt) tracks in
      let X := dv_fit_transform sk feat_dicts in
      let Xs := scaler_fit_transform sk X in
      let! labels := km_fit_predict sk (arg_k args) Xs in
      let! sil := sampled_silhouette sk args Xs labels in
      let! assignments := mapM make_assignment (combine tracks labels) in
      let model :=
        {| schema_version := 1;
           model_k := arg_k args;
           feature_names := dv_feature_names sk feat_dicts;
           scale := scaler_scale sk X;
           centroids := km_cluster_centers sk (arg_k args) Xs;
           silhouette_sample := sil |} in
      Ok (assignments, model)
  | _ => Raise ValueError
  end.

End TrainKMeans.

(** ** The numeric interface of the descriptor code *)

Module Numeric.

(** The float operations the descriptor methods use.  [of_dec m e] is the
    decimal literal [m]e[e]; [f_lt] and [f_le] are Python's [<] and [<=]
    (false on a NaN). *)
Class Num (F : Type) : Type := {
  of_int : Z -> F;
  of_dec : Z -> Z -> F;
  f_add : F -> F -> F;
  f_sub : F -> F -> F;
  f_mul : F -> F -> F;
  f_div : F -> F -> F;
  f_sqrt : F -> F;
  f_abs : F -> F;
  f_lt : F -> F -> bool;
  f_le : F -> F -> bool
}.

(** Binary64, as the program runs. *)
#[global] Instance b64_num : Num B64.float := {|
  of_int := B64.of_Z;
  of_dec := B64.of_dec;
  f_add := B64.add;
  f_sub := B64.sub;
  f_mul := B64.mul;
  f_div := B64.div;
  f_sqrt := B64.sqrt;
  f_abs := B64.abs;
  f_lt := B64.ltb;
  f_le := B64.leb
|}.

Definition Rltb (x y : R) : bool := if Rlt_dec x y then true else false.
Definition Rleb (x y : R) : bool := if Rle_dec x y then true else false.

Definition R_of_dec (m e : Z) : R :=
  if 0 <=? e then IZR (m * 10 ^ e) else (IZR m / IZR (10 ^ (- e)))%R.

(** Exact real arithmetic: the same operations without rounding, NaN or
    infinities. *)
#[global] Instance exact_num : Num R := {|
  of_int := IZR;
  of_dec := R_of_dec;
  f_add := Rplus;
  f_sub := Rminus;
  f_mul := Rmult;
  f_div := Rdiv;
  f_sqrt := R_sqrt.sqrt;
  f_abs := Rabs;
  f_lt := Rltb;
  f_le := Rleb
|}.

(** [np.log10] in exact arithmetic. *)
Definition Rlog10 (x : R) : R := (ln x / ln 10)%R.

End Numeric.

Export Numeric.

Declare Scope num_scope.
Delimit Scope num_scope with num.
Notation "x + y" := (f_add x y) : num_scope.
Notation "x - y" := (f_sub x y) : num_scope.
Notation "x * y" := (f_mul x y) : num_scope.
Notation "x / y" := (f_div x y) : num_scope.
Notation "x <? y" := (f_lt x y) : num_scope.
Notation "x <=? y" := (f_le x y) : num_scope.
Notation "x >? y" := (f_lt y x) : num_scope.
Notation "x >=? y" := (f_le y x) : num_scope.

(** ** The numpy array operations the descriptor code calls *)

Module Numpy.

Section Generic.

Context {F : Type} {N : Num F}.

Definition zero : F := of_int 0.

(** A NaN is the only value that is not [<=] itself. *)
Definition is_nan (x : F) : bool := negb (x <=? x)%num.

(** The builtin [max(a, b)]: [a] unless [b > a]. *)
Definition py_max (a b : F) : F := if (b >? a)%num then b else a.

(** [np.sum] of a vector, added from left to right.  (numpy adds pairwise;
    in exact arithmetic, and on the binary64 inputs evaluated below, the
    order does not change the sum.) *)
Definition np_sum (l : list F) : F := fold_left f_add l zero.

Definition np_mean (l : list F) : F :=
  (np_sum l / of_int (Z.of_nat (length l)))%num.

(** [a ** 2]. *)
Definition np_square (l : list F) : list F := map (fun x => x * x)%num l.

Definition np_abs (l : list F) : list F := map f_abs l.

(** [np.maximum]: the larger value, a NaN if there is one. *)
Definition np_maximum (a b : F) : F :=
  if (a >=? b)%num || is_nan a then a else b.

(** [np.max]: [ValueError] on an empty array. *)
Definition np_max (l : list F) : result F :=
  match l with
  | [] => Raise ValueError
  | x :: t => Ok (fold_left np_maximum t x)
  end.

(** [np.argmax]: the first index of the maximum, or of the first NaN. *)
Fixpoint argmax_from (best : F) (best_i i : nat) (l : list F) : nat :=
  match l with
  | [] => best_i
  | x :: t =>
      if is_nan best then best_i
      else if negb (x <=? best)%num then argmax_from x i (S i) t
      else argmax_from best best_i (S i) t
  end.

Definition np_argmax (l : list F) : result nat :=
  match l with
  | [] => Raise ValueError
  | x :: t => Ok (argmax_from x 0%nat 1%nat t)
  end.

(** [np.roll(l, k)]: entry [i] moves to place [(i + k) mod n]. *)
Definition np_roll (l : list F) (k : nat) : list F :=
  let n := length l in
  let cut := (n - k mod n)%nat in
  skipn cut l ++ firstn cut l.

Fixpoint zip_mul (a b : list F) : list F :=
  match a, b with
  | x :: a', y :: b' => (x * y)%num :: zip_mul a' b'
  | _, _ => []
  end.

(** [np.dot] of two vectors: [ValueError] when the lengths differ. *)
Definition np_dot (a b : list F) : result F :=
  if (length a =? length b)%nat then Ok (np_sum (zip_mul a b))
  else Raise ValueError.

(** [np.std]: the square root of the mean squared deviation. *)
Definition np_std (l : list F) : F :=
  let m := np_mean l in
  f_sqrt (np_mean (map (fun x => let d := (x - m)%num in d * d)%num l)).

(** [np.correlate(a, v, mode="full")]: entry [j] is the sum over [n] of
    [a[n + j - (len v - 1)] * v[n]]; [ValueError] on an empty input. *)
Definition np_correlate_full (a v : list F) : result (list F) :=
  match a, v with
  | [], _ | _, [] => Raise ValueError
  | _, _ =>
      let na := length a in
      let nv := length v in
      let entry (j : nat) : F :=
        np_sum
          (map (fun n => nth (n + j - (nv - 1))%nat a zero * nth n v zero)%num
               (filter (fun n => (nv - 1 <=? n + j)%nat && (n + j - (nv - 1) <? na)%nat)
                       (seq 0 nv))) in
      Ok (map entry (seq 0 (na + nv - 1)))
  end.

End Generic.

End Numpy.

Export Numpy.

(** ** [src/utils/SpotifyFeaturesDSP.py] *)

Module SpotifyFeaturesDSP.

(** The librosa calls of the descriptor methods, as functions of their
    arguments.  [beat_track] gives the tempo and the beat frames;
    [util_sync_mean env beats] is row 0 of
    [librosa.util.sync(env.reshape(1, -1), beats, aggregate=np.mean)];
    [chroma_cqt y sr i] is row [i] of the 12-row chromagram. *)
Record Librosa (F : Type) : Type := {
  onset_strength : list F -> Z -> list F;
  beat_track : list F -> Z -> F * option (list nat);
  util_sync_mean : list F -> list nat -> list F;
  chroma_cqt : list F -> Z -> nat -> list F;
  effects_hpss : list F -> list F * list F
}.

Arguments onset_strength {F} _ _ _.
Arguments beat_track {F} _ _ _.
Arguments util_sync_mean {F} _ _ _.
Arguments chroma_cqt {F} _ _ _ _.
Arguments effects_hpss {F} _ _.

Record AudioFeatureExtractor (F : Type) : Type := {
  self_y : list F;
  self_sr : Z
}.

Arguments self_y {F} _.
Arguments self_sr {F} _.

Section Methods.

Context {F : Type} {N : Num F}.
Variable lib : Librosa F.
Variable np_log10 : F -> F.

Definition eps12 : F := of_dec 1 (-12).

Definition peak (self : AudioFeatureExtractor F) : result F :=
  np_max (np_abs (self_y self)).

(** Lines 79-80: [r = max(sqrt(mean(y ** 2)), 1e-12)]. *)
Definition guarded_rms (self : AudioFeatureExtractor F) : F :=
  let r := f_sqrt (np_mean (np_square (self_y self))) in
  py_max r eps12.

(** Line 81: [p = max(self.peak(), 1e-12)]. *)
Definition guarded_peak (self : AudioFeatureExtractor F) : result F :=
  let! pk := peak self in
  Ok (py_max pk eps12).

Definition crest_factor_db (self : AudioFeatureExtractor F) : result F :=
  let r := guarded_rms self in
  let! p := guarded_peak self in
  Ok (of_dec 20 0 * np_log10 (p / r))%num.

(** Krumhansl major and minor templates. *)
Definition major_profile : list F :=
  map (fun m => of_dec m (-2))
      [635; 223; 348; 233; 438; 409; 252; 519; 239; 366; 229; 288].

Definition minor_profile : list F :=
  map (fun m => of_dec m (-2))
      [633; 268; 352; 538; 260; 353; 254; 475; 398; 269; 334; 317].

(** [v / v.sum()]. *)
Definition normalized (v : list F) : list F :=
  let s := np_sum v in map (fun x => x / s)%num v.

(** Lines 129-131: the correlation with each of the 12 rotations. *)
Definition rotation_corrs (chroma_mean template : list F) : result (list F) :=
  mapM (fun k => np_dot chroma_mean (np_roll template k)) (seq 0 12).

(** The nested [best_corr(template)] of [key_and_mode]. *)
Definition best_corr (chroma_mean template : list F) : result (nat * F) :=
  let! corrs := rotation_corrs chroma_mean template in
  let! k_best := np_argmax corrs in
  let! c_best := np_max corrs in
  Ok (k_best, c_best).

(** Lines 138-145: the winning family, its rotation, and the gap. *)
Definition pick_mode (kM : nat) (cM : F) (km : nat) (cm : F) : nat * Z * F :=
  if (cM >=? cm)%num then (kM, 1, cM - cm)%num
  else (km, 0, cm - cM)%num.

(** [chroma_mean] of lines 118-120. *)
Definition chroma_profile (self : AudioFeatureExtractor F) : list F :=
  let chroma := chroma_cqt lib (self_y self) (self_sr self) in
  let chroma_mean := map (fun i => np_mean (chroma i)) (seq 0 12) in
  let s := (np_sum chroma_mean + eps12)%num in
  map (fun x => x / s)%num chroma_mean.

Definition key_and_mode (self : AudioFeatureExtractor F) : result (nat * Z * F) :=
  let chroma_mean := chroma_profile self in
  let major := normalized major_profile in
  let minor := normalized minor_profile in
  let! (kM, cM) := best_corr chroma_mean major in
  let! (km, cm) := best_corr chroma_mean minor in
  Ok (pick_mode kM cM km cm).

(** [beats is None or len(beats) < 8]. *)
Definition too_few_beats (beats : option (list nat)) : bool :=
  match beats with
  | None => true
  | Some b => (length b <? 8)%nat
  end.

(** [beat_env] after line 159: the accent per beat, mean-centred. *)
Definition beat_accents (self : AudioFeatureExtractor F) : list F :=
  let onset_env := onset_strength lib (self_y self) (self_sr self) in
  let '(_, beats) := beat_track lib onset_env (self_sr self) in
  let beat_env := util_sync_mean lib onset_env (default [] beats) in
  let m := np_mean beat_env in
  map (fun x => x - m)%num beat_env.

Definition time_signature_guess (self : AudioFeatureExtractor F) : result (Z * F) :=
  let onset_env := onset_strength lib (self_y self) (self_sr self) in
  let '(_, beats) := beat_track lib onset_env (self_sr self) in
  if too_few_beats beats then Ok (4, of_dec 0 0)
  else
    let beat_env := beat_accents self in
    if (np_std beat_env <? of_dec 1 (-6))%num then Ok (4, of_dec 0 0)
    else
      let! ac := np_correlate_full beat_env beat_env in
      let ac := skipn (length ac / 2) ac in
      if (length ac <=? 5)%nat then Ok (4, of_dec 0 0)
      else
        let lag3 := if (3 <? length ac)%nat then nth 3 ac zero else of_dec 0 0 in
        let lag4 := if (4 <? length ac)%nat then nth 4 ac zero else of_dec 0 0 in
        if (lag3 >? lag4)%num then
          let conf := ((lag3 - lag4) / (f_abs lag3 + f_abs lag4 + eps12))%num in
          Ok (3, conf)
        else
          let conf := ((lag4 - lag3) / (f_abs lag3 + f_abs lag4 + eps12))%num in
          Ok (4, conf).

Definition harmonic_percussive_ratio (self : AudioFeatureExtractor F) : F :=
  let '(y_harm, y_perc) := effects_hpss lib (self_y self) in
  let eh := np_mean (np_square y_harm) in
  let ep := np_mean (np_square y_perc) in
  (eh / (eh + ep + eps12))%num.

End Methods.

End SpotifyFeaturesDSP.

(** ** Sample inputs and stand-ins for the libraries

    Concrete values on which the definitions above are evaluated. *)

Module Samples.

Import TrainKMeans SpotifyFeaturesDSP.

(** A runtime in which no string parses as a float.  The one string the
    samples hold where a number is read is ["fast"], which [float] refuses
    in Python as well. *)
Definition plain_runtime : Runtime := {|
  float_of_str := fun _ => None;
  repr := fun _ => "?"
|}.

(** [{"id": "t1", "brainz": {"acousticHighLevel": {}}}]: the classifier
    block is there and holds no classifier. *)
Definition track_empty_block : json :=
  JDict [("id", JStr "t1");
         ("brainz", JDict [("acousticHighLevel", JDict [])])].

(** [{"id": "t2", "brainz": [{"acousticHighLevel": {}}]}]: the block is
    wrapped in a list. *)
Definition track_brainz_list : json :=
  JDict [("id", JStr "t2");
         ("brainz", JList [JDict [("acousticHighLevel", JDict [])]])].

(** [{"id": "t3", "name": "Song", "artists": ["A"], "energy": 0.5,
     "popularity": 0, "tempo": "fast"}]. *)
Definition track_plain : json :=
  JDict [("id", JStr "t3"); ("name", JStr "Song");
         ("artists", JList [JStr "A"]);
         ("energy", JFloat (B64.of_dec 5 (-1)));
         ("popularity", JInt 0);
         ("tempo", JStr "fast")].

(** A track with one classifier in each of the two accepted shapes. *)
Definition track_classified : json :=
  JDict [("id", JStr "t4");
         ("brainz",
          JDict [("acousticHighLevel",
                  JDict [("highlevel",
                          JDict [("mood_happy",
                                  JDict [("all",
                                          JDict [("happy", JFloat (B64.of_dec 75 (-2)));
                                                 ("not_happy", JFloat (B64.of_dec 25 (-2)))])]);
                                 ("danceability",
                                  JDict [("value", JStr "danceable");
                                         ("probability", JFloat (B64.of_dec 9 (-1)))])])])])].

(** A stand-in for scikit-learn: the energy value as the only column,
    labels dealt round robin, the first [k] rows as the sample, and a scorer
    that refuses a single label. *)
Definition toy_sklearn : Sklearn := {|
  dv_fit_transform := fun ds =>
    map (fun d : gmap string B64.float => [default B64.zero (d !! "sp__energy")]) ds;
  dv_feature_names := fun _ => ["sp__energy"];
  scaler_fit_transform := fun X => X;
  scaler_scale := fun _ => [B64.one];
  km_fit_predict := fun k Xs =>
    if (k <=? 0) || (Z.of_nat (length Xs) <? k) then Raise ValueError
    else Ok (map (fun i => Z.of_nat i mod k) (seq 0 (length Xs)));
  km_cluster_centers := fun _ _ => [];
  random_sample := fun _ k => seq 0 k;
  silhouette_score := fun _ labels =>
    match labels with
    | a :: t => if forallb (Z.eqb a) t then Raise ValueError else Ok B64.zero
    | [] => Raise ValueError
    end
|}.

Definition catalog (n : nat) : json := JList (repeat track_plain n).

(** The command line defaults but for [k]: [--k 2 --silhouette_sample 1500]. *)
Definition args_default : Args := {| arg_k := 2; arg_silhouette_sample := 1500 |}.

(** [--k 2 --silhouette_sample 10]. *)
Definition args_small_sample : Args := {| arg_k := 2; arg_silhouette_sample := 10 |}.

Definition three_tracks : list json :=
  [track_plain; track_classified; track_empty_block].

(** The feature maps of [three_tracks]. *)
Definition three_features : list (gmap string B64.float) :=
  match mapM (featurize_track plain_runtime) three_tracks with
  | Ok r => r
  | Raise _ => []
  end.

(** librosa on digital silence: no onsets, no beats, an all-zero
    chromagram, and all-zero harmonic and percussive parts. *)
Definition silence_librosa {F : Type} {N : Num F} : Librosa F := {|
  onset_strength := fun y _ => map (fun _ => zero) y;
  beat_track := fun _ _ => (zero, Some []);
  util_sync_mean := fun _ _ => [zero];
  chroma_cqt := fun y _ _ => map (fun _ => zero) y;
  effects_hpss := fun y => (map (fun _ => zero) y, map (fun _ => zero) y)
|}.

(** Four samples of silence. *)
Definition silence {F : Type} {N : Num F} : AudioFeatureExtractor F :=
  {| self_y := repeat zero 4; self_sr := 22050 |}.

(** Three samples of the constant 0.3. *)
Definition dc03 {F : Type} {N : Num F} : AudioFeatureExtractor F :=
  {| self_y := repeat (of_dec 3 (-1)) 3; self_sr := 22050 |}.

(** A stand-in for librosa on a steady pulse: eight beats, accents that
    repeat every four beats, and a chromagram with all its energy on C, E
    and G. *)
Definition pulse_librosa {F : Type} {N : Num F} : Librosa F := {|
  onset_strength := fun y _ => y;
  beat_track := fun _ _ => (of_int 120, Some (seq 0 8));
  util_sync_mean := fun _ _ =>
    map of_int [4; 1; 1; 1; 4; 1; 1; 1; 4];
  chroma_cqt := fun _ _ i =>
    if (i =? 0)%nat || (i =? 4)%nat || (i =? 7)%nat then [of_int 1; of_int 1]
    else [of_int 0; of_int 0];
  effects_hpss := fun y => (y, map (fun _ => zero) y)
|}.

(** A stand-in for librosa on a click track with equal accents: nine
    beats, every accent the same. *)
Definition flat_librosa {F : Type} {N : Num F} : Librosa F := {|
  onset_strength := fun y _ => y;
  beat_track := fun _ _ => (of_int 120, Some (seq 0 9));
  util_sync_mean := fun _ _ => map of_int [2; 2; 2; 2; 2; 2; 2; 2; 2; 2];
  chroma_cqt := fun _ _ _ => [of_int 1];
  effects_hpss := fun y => (map (fun _ => zero) y, y)
|}.

End Samples.

(** ** Integer division, slices, and the exceptions of the loading code *)

Module PyArith.

(** What the loading and summary code can raise: the exceptions above,
    [ZeroDivisionError], and the exceptions a library defines itself. *)
Inductive error : Type :=
  | ZeroDivisionError
  | Builtin (e : exn)
  | LibraryError (name : string).

Inductive outcome (A : Type) : Type :=
  | Return (a : A)
  | Throw (e : error).

Arguments Return {A} a.
Arguments Throw {A} e.

Definition and_then {A B : Type} (m : outcome A) (k : A -> outcome B) : outcome B :=
  match m with
  | Return a => k a
  | Throw e => Throw e
  end.

(** A computation that raises only exceptions of [exn]. *)
Definition lift {A : Type} (m : result A) : outcome A :=
  match m with
  | Ok a => Return a
  | Raise e => Throw (Builtin e)
  end.

Definition returns {A : Type} (m : outcome A) : bool :=
  match m with Return _ => true | Throw _ => false end.

(** [a // b] on integers. *)
Definition floordiv (a b : Z) : outcome Z :=
  if b =? 0 then Throw ZeroDivisionError else Return (a / b).


(** [int(x)] on a binary64 float: truncation toward zero. *)
Definition int_of_b64 (x : B64.float) : result Z :=
  match x with
  | S754_nan => Raise ValueError
  | S754_infinity _ => Raise OverflowError
  | S754_zero _ => Ok 0
  | S754_finite s m e =>
      Ok (cond_Zopp s (if 0 <=? e then Zpos m * 2 ^ e else Zpos m / 2 ^ (- e)))
  end.

(** Truncation toward zero of a real number. *)
Definition int_of_R (x : R) : result Z :=
  Ok (if Rle_dec 0 x then Int_part x else - Int_part (- x)).

(** [int(x)] in the two readings of a float. *)
Class ToInt (F : Type) : Type := { py_int : F -> result Z }.

#[global] Instance b64_to_int : ToInt B64.float := {| py_int := int_of_b64 |}.
#[global] Instance exact_to_int : ToInt R := {| py_int := int_of_R |}.

(** [d[k] = v] on a dict the code builds, kept in insertion order. *)
Fixpoint dict_set {V : Type} (d : list (string * V)) (k : string) (v : V)
  : list (string * V) :=
  match d with
  | [] => [(k, v)]
  | (k', v') :: t =>
      if String.eqb k' k then (k', v) :: t else (k', v') :: dict_set t k v
  end.

(** [d.update(e)]. *)
Definition dict_update_items {V : Type} (d e : list (string * V)) : list (string * V) :=
  fold_left (fun acc kv => dict_set acc (fst kv) (snd kv)) e d.

End PyArith.

Export PyArith.

Notation "'let?' x := e1 'in' e2" := (PyArith.and_then e1 (fun x => e2))
  (at level 10, x pattern, e1 at level 100, e2 at level 200) : py_scope.

(** ** Where a classifier feature comes from *)

Module Provenance.

Import TrainKMeans.

(** The classifier objects [its] hold a numeric probability for [key]:
    a class of the table [clf_obj.get("all") or clf_obj.get("probabilities")]
    of a classifier whose table is a dict, or the probability of a
    classifier in the value/probability form; [v] is its float. *)
Definition probability_source (rt : Runtime) (its : list (string * json))
    (key : string) (v : B64.float) : Prop :=
  exists clf obj, In (clf, JDict obj) its /\
    let table := if truthy (dict_get obj "all") then dict_get obj "all"
                 else dict_get obj "probabilities" in
    if is_dict table
    then exists cls p, In (cls, p) (items table) /\
           key = ab_key clf cls /\ py_float rt p = Ok v
    else is_None (dict_get obj "value") = false /\
         key = ab_key clf (format_value rt (dict_get obj "value")) /\
         py_float rt (dict_get obj "probability") = Ok v.

End Provenance.

(** ** [src/utils/SpotifyFeaturesDSP.py]: loading a file *)

Module Loading.

Import SpotifyFeaturesDSP.

(** The arrays [sf.read(path, always_2d=False)] returns: one dimension for
    a mono file, two (frames by channels) otherwise.  A two-dimensional
    array is the list of its rows, each of length [ncols]; its shape is
    [(length rows, ncols)]. *)
Inductive ndarray (F : Type) : Type :=
  | Array1 (v : list F)
  | Array2 (ncols : nat) (rows : list (list F)).

Arguments Array1 {F} v.
Arguments Array2 {F} ncols rows.

Definition well_shaped {F : Type} (y : ndarray F) : Prop :=
  match y with
  | Array1 _ => True
  | Array2 ncols rows => Forall (fun r => length r = ncols) rows
  end.

(** The soundfile, scipy and librosa calls of the loading code.
    [effects_trim y] is the signal of [librosa.effects.trim(y, top_db=40)]. *)
Record Codecs (F : Type) : Type := {
  sf_read : string -> outcome (ndarray F * Z);
  resample_poly : list F -> Z -> Z -> outcome (list F);
  astype_float32 : list F -> list F;
  effects_trim : list F -> outcome (list F)
}.

Arguments sf_read {F} _ _.
Arguments resample_poly {F} _ _ _ _.
Arguments astype_float32 {F} _ _.
Arguments effects_trim {F} _ _.

Section Generic.

Context {F : Type} {N : Num F} {I : ToInt F}.
Variable io : Codecs F.

(** [np.mean(y, axis=0)]: the mean of each column. *)
Definition np_mean_axis0 (ncols : nat) (rows : list (list F)) : list F :=
  map (fun j => np_mean (map (fun r => nth j r zero) rows)) (seq 0 ncols).

(** [np.mean(y, axis=1)]: the mean of each row. *)
Definition np_mean_axis1 (rows : list (list F)) : list F :=
  map np_mean rows.

Definition _to_mono (y : ndarray F) : list F :=
  match y with
  | Array1 v => v
  | Array2 ncols rows =>
      if (length rows <? ncols)%nat then np_mean_axis0 ncols rows
      else np_mean_axis1 rows
  end.

(** Lines 31-33: the factors handed to [resample_poly]. *)
Definition resample_factors (orig_sr target_sr : Z) : outcome (Z * Z) :=
  let g := Z.gcd orig_sr target_sr in
  let? up := floordiv target_sr g in
  let? down := floordiv orig_sr g in
  Return (up, down).

Definition _resample (y : list F) (orig_sr target_sr : Z) : outcome (list F) :=
  if orig_sr =? target_sr then Return y
  else
    let? (up, down) := resample_factors orig_sr target_sr in
    let? r := resample_poly io y up down in
    Return (astype_float32 io r).


End Generic.

End Loading.

(** ** [src/utils/SpotifyFeaturesDSP.py]: the other methods *)

Module Summary.

Import SpotifyFeaturesDSP.

(** The librosa and pyloudnorm calls of these methods, each as the array
    or number the method reads off the call's result:
    [feature_rms y frame_length hop_length] is row 0 of
    [librosa.feature.rms]; [beat_tempo env sr] is entry 0 of
    [librosa.beat.tempo(onset_envelope=env, sr=sr, aggregate=np.median)];
    [integrated_loudness sr y] is [pyln.Meter(sr).integrated_loudness(y)];
    the five spectral features are row 0 of the call of the same name,
    [spectral_rolloff] at [roll_percent=0.85]. *)
Record Analysis (F : Type) : Type := {
  feature_rms : list F -> Z -> Z -> outcome (list F);
  beat_tempo : list F -> Z -> outcome F;
  integrated_loudness : Z -> list F -> outcome F;
  spectral_centroid : list F -> Z -> outcome (list F);
  spectral_bandwidth : list F -> Z -> outcome (list F);
  spectral_rolloff : list F -> Z -> outcome (list F);
  spectral_flatness : list F -> outcome (list F);
  zero_crossing_rate : list F -> outcome (list F)
}.

Arguments feature_rms {F} _ _ _ _.
Arguments beat_tempo {F} _ _ _.
Arguments integrated_loudness {F} _ _ _.
Arguments spectral_centroid {F} _ _ _.
Arguments spectral_bandwidth {F} _ _ _.
Arguments spectral_rolloff {F} _ _ _.
Arguments spectral_flatness {F} _ _.
Arguments zero_crossing_rate {F} _ _.

(** A value of the feature dict of [compute_all]. *)
Inductive value (F : Type) : Type :=
  | VNone
  | VInt (n : Z)
  | VFloat (f : F).

Arguments VNone {F}.
Arguments VInt {F} n.
Arguments VFloat {F} f.

(** [pyln is None]: the import at line 8 binds the name to the module,
    never to [None]. *)
Definition pyln_is_None : bool := false.

Section Methods.

Context {F : Type} {N : Num F}.
Variable lib : Librosa F.
Variable an : Analysis F.
Variable np_log10 : F -> F.

(** [np.clip(x, lo, hi)] on a scalar: a NaN stays, any other [x] is raised
    to [lo] and then lowered to [hi]. *)
Definition np_clip (x lo hi : F) : F :=
  let t := if is_nan x then x else if (x >? lo)%num then x else lo in
  if is_nan t then t else if (t <? hi)%num then t else hi.

(** [len(y) / sr] divides two integers and rounds once; the quotient of
    their floats is the same number when both are below 2^53. *)
Definition duration_ms (self : AudioFeatureExtractor F) : outcome F :=
  if self_sr self =? 0 then Throw ZeroDivisionError
  else
    Return (of_int (Z.of_nat (length (self_y self))) / of_int (self_sr self)
            * of_dec 1000 0)%num.

Definition rms (self : AudioFeatureExtractor F) (frame_length hop_length : Z)
  : outcome F :=
  let? r := feature_rms an (self_y self) frame_length hop_length in
  Return (np_mean r).

Definition rms_dbfs (self : AudioFeatureExtractor F) : F :=
  let r := f_sqrt (np_mean (np_square (self_y self))) in
  let r := py_max r eps12 in
  (of_dec 20 0 * np_log10 r)%num.

Definition energy_proxy_0_1 (self : AudioFeatureExtractor F) : outcome F :=
  let? r := rms self 2048 512 in
  let x := ((r - of_dec 2 (-2)) / (of_dec 20 (-2) - of_dec 2 (-2)))%num in
  Return (np_clip x (of_dec 0 0) (of_dec 1 0)).

Definition loudness_lufs (self : AudioFeatureExtractor F) : outcome (option F) :=
  if pyln_is_None then Return None
  else
    let? l := integrated_loudness an (self_sr self) (self_y self) in
    Return (Some l).

Definition tempo_bpm (self : AudioFeatureExtractor F) : outcome F :=
  let onset_env := onset_strength lib (self_y self) (self_sr self) in
  beat_tempo an onset_env (self_sr self).

Definition spectral_summary (self : AudioFeatureExtractor F)
  : outcome (list (string * F)) :=
  let? centroid := spectral_centroid an (self_y self) (self_sr self) in
  let? bandwidth := spectral_bandwidth an (self_y self) (self_sr self) in
  let? rolloff := spectral_rolloff an (self_y self) (self_sr self) in
  let? flatness := spectral_flatness an (self_y self) in
  let? zcr := zero_crossing_rate an (self_y self) in
  Return [("spectral_centroid_mean", np_mean centroid);
          ("spectral_bandwidth_mean", np_mean bandwidth);
          ("spectral_rolloff85_mean", np_mean rolloff);
          ("spectral_flatness_mean", np_mean flatness);
          ("zcr_mean", np_mean zcr)].

Definition compute_all (self : AudioFeatureExtractor F)
  : outcome (list (string * value F)) :=
  let? (key, mode, key_conf) := lift (key_and_mode lib self) in
  let? (ts, ts_conf) := lift (time_signature_guess lib self) in
  let? duration := duration_ms self in
  let? tempo := tempo_bpm self in
  let? lufs := loudness_lufs self in
  let loudness_rms := rms_dbfs self in
  let? energy := energy_proxy_0_1 self in
  let? crest := lift (crest_factor_db np_log10 self) in
  let harmonic := harmonic_percussive_ratio lib self in
  let feats :=
    [("duration_ms", VFloat duration);
     ("tempo", VFloat tempo);
     ("loudness_lufs", match lufs with Some l => VFloat l | None => VNone end);
     ("loudness_rms_dbfs", VFloat loudness_rms);
     ("energy_proxy", VFloat energy);
     ("key", VInt (Z.of_nat key));
     ("mode", VInt mode);
     ("key_confidence", VFloat key_conf);
     ("time_signature_guess", VInt ts);
     ("time_signature_confidence", VFloat ts_conf);
     ("crest_factor_db", VFloat crest);
     ("harmonic_ratio", VFloat harmonic)] in
  let? spectral := spectral_summary self in
  Return (dict_update_items feats
            (map (fun kv => (fst kv, VFloat (snd kv))) spectral)).

End Methods.

End Summary.

(** ** Sample files and stand-ins for the loading and analysis calls *)

Module MoreSamples.

Import SpotifyFeaturesDSP Samples Loading Summary.

(** A stand-in for the file and signal libraries: every path holds eight
    mono samples of 1.0 at 4 Hz; resampling, the cast and trimming leave the
    signal as it is. *)
Definition toy_codecs {F : Type} {N : Num F} : Codecs F := {|
  sf_read := fun _ => Return (Array1 (repeat (of_int 1) 8), 4);
  resample_poly := fun y _ _ => Return y;
  astype_float32 := fun y => y;
  effects_trim := fun y => Return y
|}.

(** Three stereo frames, as [sf.read] gives them: shape (3, 2). *)
Definition stereo_frames {F : Type} {N : Num F} : ndarray F :=
  Array2 2 [[of_int 1; of_int 0]; [of_int 0; of_int 1]; [of_int 1; of_int 1]].

(** A stand-in for the analysis calls: one frame of each feature. *)
Definition toy_analysis {F : Type} {N : Num F} : Analysis F := {|
  feature_rms := fun _ _ _ => Return [of_dec 1 (-1)];
  beat_tempo := fun _ _ => Return (of_int 120);
  integrated_loudness := fun _ _ => Return (of_int (-23));
  spectral_centroid := fun _ _ => Return [of_int 1000];
  spectral_bandwidth := fun _ _ => Return [of_int 500];
  spectral_rolloff := fun _ _ => Return [of_int 4000];
  spectral_flatness := fun _ => Return [of_dec 1 (-2)];
  zero_crossing_rate := fun _ => Return [of_dec 5 (-2)]
|}.

(** A stand-in for librosa on a single sustained tone: all chroma energy
    on the pitch class [pitch]. *)
Definition tone_librosa {F : Type} {N : Num F} (pitch : nat) : Librosa F := {|
  onset_strength := fun y _ => y;
  beat_track := fun _ _ => (of_int 120, Some []);
  util_sync_mean := fun _ _ => [zero];
  chroma_cqt := fun _ _ i => if (i =? pitch)%nat then [of_int 1] else [of_int 0];
  effects_hpss := fun y => (y, map (fun _ => zero) y)
|}.

(** The features of four samples of silence under the stand-ins, with the
    identity in the place of [np.log10]. *)
Definition silence_features : list (string * value B64.float) :=
  match compute_all (N:=b64_num) silence_librosa toy_analysis (fun x => x) silence with
  | Return feats => feats
  | Throw _ => []
  end.

End MoreSamples.

(** ** Tactics *)

(** Read a key of a feature map built by a chain of insertions on literal
    keys. *)
Ltac map_lookup :=
  repeat (rewrite lookup_insert_ne by (vm_compute; discriminate));
  try (rewrite lookup_insert_eq); try reflexivity.

(** Name the twelve entries of a list of length 12. *)
Ltac twelve l :=
  let rec go l n :=
    lazymatch n with
    | O => destruct l; [|discriminate]
    | S ?m => destruct l as [|? l]; [discriminate|]; go l m
    end in
  go l 12%nat.

(* ===================================================================== *)
(** * Part II: properties                                                  *)
(* ===================================================================== *)

(** ** The exception monad *)

Module PyFacts.

Lemma bind_ok {A B : Type} (m : result A) (k : A -> result B) (b : B) :
  Py.bind m k = Ok b <-> exists a, m = Ok a /\ k a = Ok b.
Proof.
  destruct m as [a|e]; simpl; split.
  - intros H. exists a. auto.
  - intros [a' [Ha Hk]]. inversion Ha. subst. exact Hk.
  - discriminate.
  - intros [a' [Ha _]]. discriminate.
Qed.

Lemma is_ok_default {A : Type} (m : result A) (d : A) :
  is_ok m = true -> m = Ok (match m with Ok a => a | Raise _ => d end).
Proof. destruct m; [reflexivity | discriminate]. Qed.

Lemma foldM_total {A S : Type} (f : S -> A -> result S) (l : list A) :
  (forall s a, exists s', f s a = Ok s') ->
  forall s, exists s', foldM f s l = Ok s'.
Proof.
  intros Hf. induction l as [|a t IH]; intros s; simpl.
  - exists s. reflexivity.
  - destruct (Hf s a) as [s1 H1]. rewrite H1. simpl. apply IH.
Qed.

Lemma mapM_length {A B : Type} (f : A -> result B) (l : list A) (r : list B) :
  mapM f l = Ok r -> length r = length l.
Proof.
  revert r. induction l as [|a t IH]; intros r; simpl.
  - intros H. inversion H. reflexivity.
  - destruct (f a) as [b|e]; simpl; [|discriminate].
    destruct (mapM f t) as [bs|e]; simpl; [|discriminate].
    intros H. inversion H. simpl. f_equal. apply IH. reflexivity.
Qed.

Lemma mapM_lookup {A B : Type} (f : A -> result B) (l : list A) (r : list B) :
  mapM f l = Ok r ->
  forall i a, l !! i = Some a -> exists b, r !! i = Some b /\ f a = Ok b.
Proof.
  revert r. induction l as [|a t IH]; intros r; simpl.
  - intros _ i a H. destruct i; discriminate.
  - destruct (f a) as [b|e] eqn:Hfa; simpl; [|discriminate].
    destruct (mapM f t) as [bs|e]; simpl; [|discriminate].
    intros H. inversion H. subst r. intros [|i] a' Hi; simpl in *.
    + inversion Hi. subst. exists b. auto.
    + apply (IH bs eq_refl i a' Hi).
Qed.

Lemma mapM_total {A B : Type} (f : A -> result B) (l : list A) :
  (forall a, In a l -> exists b, f a = Ok b) -> exists r, mapM f l = Ok r.
Proof.
  induction l as [|a t IH]; intros H; simpl.
  - eexists. reflexivity.
  - destruct (H a (or_introl eq_refl)) as [b Hb]. rewrite Hb. simpl.
    destruct IH as [r Hr]. { intros a' Ha'. apply H. right. exact Ha'. }
    rewrite Hr. simpl. eexists. reflexivity.
Qed.

Lemma dict_get_absent (d : list (string * json)) (k : string) :
  (forall v, ~ In (k, v) d) -> dict_get d k = JNull.
Proof.
  induction d as [|[k' v'] d IH]; intros H; simpl; [reflexivity|].
  destruct (String.eqb k' k) eqn:E.
  - apply String.eqb_eq in E. subst. exfalso. apply (H v'). left. reflexivity.
  - apply IH. intros v Hv. apply (H v). right. exact Hv.
Qed.

End PyFacts.

(** ** The metadata feature builders *)

Module TrainKMeansFacts.

Import TrainKMeans Samples PyFacts.

(** [safe_num] catches whatever [float] raises. *)
Lemma safe_num_spec rt x :
  safe_num rt x =
  Ok (match py_float rt x with Ok f => Some f | Raise _ => None end).
Proof.
  unfold safe_num. destruct x; simpl; try reflexivity.
  - destruct (B64.is_inf (B64.of_Z n)); reflexivity.
  - destruct (float_of_str rt s); reflexivity.
Qed.


Lemma safe_num_None rt x :
  safe_num rt x = Ok None <-> not_numeric rt x = true.
Proof.
  rewrite safe_num_spec. unfold not_numeric.
  destruct (py_float rt x); simpl; split; intros H; try discriminate; reflexivity.
Qed.

Lemma not_numeric_missing rt (d : list (string * json)) (k : string) :
  (forall v, ~ In (k, v) d) -> not_numeric rt (dict_get d k) = true.
Proof. intros H. rewrite (dict_get_absent d k H). reflexivity. Qed.

Lemma add_prob_total rt clf out item :
  exists out', add_prob rt clf out item = Ok out'.
Proof.
  destruct item as [cls p]. unfold add_prob. rewrite safe_num_spec. simpl.
  destruct (py_float rt p); eexists; reflexivity.
Qed.

Lemma add_classifier_total rt out item :
  exists out', add_classifier rt out item = Ok out'.
Proof.
  destruct item as [clf obj]. unfold add_classifier.
  destruct obj as [| | | | | |d]; simpl; try (eexists; reflexivity).
  destruct (truthy (dict_get d "all")); simpl.
  - destruct (is_dict (dict_get d "all")).
    + apply foldM_total. intros. apply add_prob_total.
    + rewrite safe_num_spec. simpl.
      destruct (py_float rt (dict_get d "probability")); simpl;
        [destruct (is_None (dict_get d "value"))|]; eexists; reflexivity.
  - destruct (is_dict (dict_get d "probabilities")).
    + apply foldM_total. intros. apply add_prob_total.
    + rewrite safe_num_spec. simpl.
      destruct (py_float rt (dict_get d "probability")); simpl;
        [destruct (is_None (dict_get d "value"))|]; eexists; reflexivity.
Qed.

(** The block is read without an exception unless [track["brainz"]] is a
    true value that is not a dict. *)
Lemma acoustic_block_spec track :
  acoustic_block track =
  match track with
  | JDict d =>
      let b := dict_get d "brainz" in
      if truthy b then py_get b "acousticHighLevel" else Ok JNull
  | _ => Raise AttributeError
  end.
Proof.
  unfold acoustic_block. destruct track; simpl; try reflexivity.
  destruct (truthy (dict_get d "brainz")); reflexivity.
Qed.

(** Once the block is read, the classifier builder returns. *)
Lemma extract_ab_features_after_block rt track ab :
  acoustic_block track = Ok ab ->
  exists out, extract_ab_features rt track = Ok out /\
    if is_dict ab then out !! ab_flag = Some B64.one else out = ∅.
Proof.
  intros Hb. unfold extract_ab_features. rewrite Hb. simpl.
  destruct (is_dict ab) eqn:Hab; simpl.
  - destruct ab; try discriminate. simpl.
    destruct (foldM_total (add_classifier rt)
                (items (if is_dict (dict_get d "highlevel")
                        then dict_get d "highlevel" else JDict d))
                (add_classifier_total rt) ∅) as [out Hout].
    rewrite Hout. simpl. eexists. split; [reflexivity|].
    apply lookup_insert_eq.
  - exists ∅. split; reflexivity.
Qed.

(** C1, as stated, fails: for the track
    [{"id": "t1", "brainz": {"acousticHighLevel": {}}}] the builder returns a
    map whose only entry is the flag, equal to 1.0, although no classifier
    feature was emitted. *)
Lemma ab_flag_without_classifier :
  match extract_ab_features plain_runtime track_empty_block with
  | Ok out => out !! ab_flag = Some B64.one /\ size out = 1%nat
  | Raise _ => False
  end.
Proof. vm_compute. split; reflexivity. Qed.

(** C1, amended: the builder raises exactly when reading the block
    [track["brainz"]["acousticHighLevel"]] raises; otherwise it returns a map
    in which the flag is 1.0 whenever the block is a dict (whether or not a
    classifier feature was emitted), and the empty map (no flag) when the
    block is not a dict. *)
Theorem ab_flag_iff_block_is_dict rt track :
  match acoustic_block track with
  | Raise e => extract_ab_features rt track = Raise e
  | Ok ab =>
      exists out, extract_ab_features rt track = Ok out /\
        if is_dict ab then out !! ab_flag = Some B64.one else out = ∅
  end.
Proof.
  destruct (acoustic_block track) as [ab|e] eqn:Hb.
  - apply extract_ab_features_after_block. exact Hb.
  - unfold extract_ab_features. rewrite Hb. reflexivity.
Qed.

(** A classifier in the table shape and one in the value/probability shape:
    three entries besides nothing else, the flag among them. *)
Example extract_ab_features_classified :
  match extract_ab_features plain_runtime track_classified with
  | Ok out =>
      out !! "ab__mood_happy__happy" = Some (B64.of_dec 75 (-2)) /\
      out !! "ab__mood_happy__not_happy" = Some (B64.of_dec 25 (-2)) /\
      out !! "ab__danceability__danceable" = Some (B64.of_dec 9 (-1)) /\
      out !! ab_flag = Some B64.one /\
      size out = 4%nat
  | Raise _ => False
  end.
Proof. vm_compute. repeat split; reflexivity. Qed.

(** C2 fails on the code: with [track["brainz"]] a non-empty list,
    [brainz.get] raises [AttributeError] in the classifier builder, and
    with it [featurize_track] and [main]. *)
Theorem brainz_list_raises :
  extract_ab_features plain_runtime track_brainz_list = Raise AttributeError /\
  featurize_track plain_runtime track_brainz_list = Raise AttributeError /\
  main toy_sklearn plain_runtime {| arg_k := 2; arg_silhouette_sample := 1500 |}
       (JList [track_plain; track_brainz_list]) = Raise AttributeError.
Proof. repeat split; vm_compute; reflexivity. Qed.

(** The classifier builder raises for a dict track exactly when
    [track["brainz"]] is a true value that is not a dict. *)
Lemma extract_ab_features_raises_iff rt d :
  (exists e, extract_ab_features rt (JDict d) = Raise e) <->
  truthy (dict_get d "brainz") = true /\ is_dict (dict_get d "brainz") = false.
Proof.
  pose proof (acoustic_block_spec (JDict d)) as Hs. cbv zeta in Hs.
  split.
  - intros [e He].
    destruct (acoustic_block (JDict d)) as [ab|e'] eqn:Hb.
    + destruct (extract_ab_features_after_block rt _ _ Hb) as [out [Ho _]].
      congruence.
    + destruct (truthy (dict_get d "brainz")); [|discriminate].
      split; [reflexivity|].
      destruct (dict_get d "brainz"); try reflexivity. discriminate.
  - intros [Ht Hd]. exists AttributeError.
    unfold extract_ab_features. rewrite Hs, Ht.
    destruct (dict_get d "brainz"); try reflexivity. discriminate.
Qed.

(** Body of the attribute loop on a dict track. *)
Lemma add_attribute_spec rt d out k :
  add_attribute rt (JDict d) out k =
  Ok (<[sp_has_key k :=
          match py_float rt (dict_get d k) with Ok _ => B64.one | Raise _ => B64.zero end]>
        (<[sp_key k :=
             match py_float rt (dict_get d k) with Ok f => f | Raise _ => B64.zero end]>
           out)).
Proof.
  unfold add_attribute. simpl. rewrite safe_num_spec. simpl.
  destruct (py_float rt (dict_get d k)); reflexivity.
Qed.

Lemma extract_spotify_features_spec rt d :
  exists out, extract_spotify_features rt (JDict d) = Ok out /\
    Forall (fun k =>
      out !! sp_key k =
        Some (match py_float rt (dict_get d k) with Ok f => f | Raise _ => B64.zero end) /\
      out !! sp_has_key k =
        Some (match py_float rt (dict_get d k) with Ok _ => B64.one | Raise _ => B64.zero end))
      sp_names.
Proof.
  unfold extract_spotify_features, sp_names. simpl foldM.
  repeat (rewrite add_attribute_spec; simpl Py.bind).
  eexists. split; [reflexivity|].
  repeat constructor; map_lookup.
Qed.



(** An attribute that is present and equal to zero is not missing: the
    value 0.0 comes with the flag 1.0.  An attribute that is absent, or a
    string that is no number, gives 0.0 and 0.0. *)
Example extract_spotify_features_plain :
  match extract_spotify_features plain_runtime track_plain with
  | Ok out =>
      out !! "sp__popularity" = Some B64.zero /\
      out !! "sp__has_popularity" = Some B64.one /\
      out !! "sp__energy" = Some (B64.of_dec 5 (-1)) /\
      out !! "sp__has_energy" = Some B64.one /\
      out !! "sp__year" = Some B64.zero /\
      out !! "sp__has_year" = Some B64.zero /\
      out !! "sp__tempo" = Some B64.zero /\
      out !! "sp__has_tempo" = Some B64.zero /\
      size out = 12%nat
  | Raise _ => False
  end.
Proof. vm_compute. repeat split; reflexivity. Qed.

(** Neither builder raises on a track record whose ["brainz"] entry is
    absent, false, or a dict. *)
Lemma featurize_track_returns rt d :
  truthy (dict_get d "brainz") = false \/ is_dict (dict_get d "brainz") = true ->
  exists f, featurize_track rt (JDict d) = Ok f.
Proof.
  intros Hb. unfold featurize_track.
  destruct (extract_spotify_features_spec rt d) as [sp [Hsp _]].
  rewrite Hsp. simpl.
  assert (Hblock : exists ab, acoustic_block (JDict d) = Ok ab).
  { rewrite acoustic_block_spec. cbv zeta.
    destruct (truthy (dict_get d "brainz")) eqn:Ht.
    - destruct Hb as [Hb|Hb]; [discriminate|].
      destruct (dict_get d "brainz"); try discriminate. eexists. reflexivity.
    - eexists. reflexivity. }
  destruct Hblock as [ab Hab].
  destruct (extract_ab_features_after_block rt _ _ Hab) as [out [Ho _]].
  rewrite Ho. simpl. eexists. reflexivity.
Qed.

Lemma featurize_track_returns_witness :
  exists f, featurize_track plain_runtime track_classified = Ok f.
Proof.
  unfold track_classified.
  apply (featurize_track_returns plain_runtime). right. reflexivity.
Defined.

(** Lines 113-122 never raise: the scorer's exception is caught. *)
Lemma sampled_silhouette_spec sk args Xs labels :
  sampled_silhouette sk args Xs labels =
  Ok (if (50 <=? Z.min (arg_silhouette_sample args) (Z.of_nat (length Xs)))
         && (2 <=? arg_k args)
      then
        let idx := random_sample sk (length Xs)
                     (Z.to_nat (Z.min (arg_silhouette_sample args) (Z.of_nat (length Xs)))) in
        match silhouette_score sk (fancy_index [] Xs idx) (fancy_index 0 labels idx) with
        | Ok s => Some s
        | Raise _ => None
        end
      else None).
Proof.
  unfold sampled_silhouette.
  destruct ((50 <=? _) && _); [|reflexivity].
  simpl. destruct (silhouette_score sk _ _); reflexivity.
Qed.

Lemma main_inv sk rt args tracks asg m :
  main sk rt args (JList tracks) = Ok (asg, m) ->
  exists fd labels sil,
    mapM (featurize_track rt) tracks = Ok fd /\
    km_fit_predict sk (arg_k args)
      (scaler_fit_transform sk (dv_fit_transform sk fd)) = Ok labels /\
    sampled_silhouette sk args
      (scaler_fit_transform sk (dv_fit_transform sk fd)) labels = Ok sil /\
    mapM make_assignment (combine tracks labels) = Ok asg /\
    silhouette_sample m = sil.
Proof.
  unfold main. intros H.
  apply bind_ok in H. destruct H as [fd [Hfd H]].
  apply bind_ok in H. destruct H as [labels [Hl H]].
  apply bind_ok in H. destruct H as [sil [Hs H]].
  apply bind_ok in H. destruct H as [a [Ha H]].
  inversion H. subst. exists fd, labels, sil. auto.
Qed.

(** C4, as stated, fails: a catalog of 60 tracks trained with [--k 2] and
    [--silhouette_sample 10] exports a null silhouette, because the sample
    size, not the catalog size, is compared with 50.  (The stand-in scorer
    would have returned 0.0: with [--silhouette_sample 1500] it does.) *)
Lemma silhouette_null_for_large_catalog :
  match main toy_sklearn plain_runtime args_small_sample (catalog 60),
        main toy_sklearn plain_runtime args_default (catalog 60) with
  | Ok (_, m), Ok (_, m') =>
      silhouette_sample m = None /\ silhouette_sample m' = Some B64.zero
  | _, _ => False
  end.
Proof. vm_compute. split; reflexivity. Qed.

(** C4, amended: provided the scaled matrix has one row per track, the
    exported estimate is null whenever the catalog has fewer than 50
    tracks, [k < 2], or the sample-size option is below 50; when all three
    are large enough it is the float the scorer returns on the sample, and
    null if the scorer raises; a float that is exported lies in [-1, 1]
    when the scorer's values do. *)
Theorem silhouette_null_or_score sk rt args tracks
  (Hrows : forall fd,
     length (scaler_fit_transform sk (dv_fit_transform sk fd)) = length fd)
  (Hrange : forall X l s, silhouette_score sk X l = Ok s ->
     B64.leb (B64.of_Z (-1)) s = true /\ B64.leb s B64.one = true) :
  match main sk rt args (JList tracks) with
  | Raise _ => True
  | Ok (_, m) =>
      exists fd labels,
        mapM (featurize_track rt) tracks = Ok fd /\
        km_fit_predict sk (arg_k args)
          (scaler_fit_transform sk (dv_fit_transform sk fd)) = Ok labels /\
        let Xs := scaler_fit_transform sk (dv_fit_transform sk fd) in
        let n := Z.of_nat (length tracks) in
        let cap := arg_silhouette_sample args in
        let idx := random_sample sk (length Xs) (Z.to_nat (Z.min cap n)) in
        (n < 50 \/ arg_k args < 2 \/ cap < 50 -> silhouette_sample m = None) /\
        (50 <= n -> 2 <= arg_k args -> 50 <= cap ->
         silhouette_sample m =
         match silhouette_score sk (fancy_index [] Xs idx) (fancy_index 0 labels idx) with
         | Ok s => Some s
         | Raise _ => None
         end) /\
        (forall s, silhouette_sample m = Some s ->
           50 <= n /\ 2 <= arg_k args /\ 50 <= cap /\
           B64.leb (B64.of_Z (-1)) s = true /\ B64.leb s B64.one = true)
  end.
Proof.
  destruct (main sk rt args (JList tracks)) as [[asg m]|e] eqn:Hmain; [|exact I].
  apply main_inv in Hmain.
  destruct Hmain as [fd [labels [sil [Hfd [Hkm [Hsil [_ Hm]]]]]]].
  exists fd, labels. split; [exact Hfd|]. split; [exact Hkm|].
  rewrite sampled_silhouette_spec in Hsil. cbv zeta in Hsil.
  pose proof (mapM_length _ _ _ Hfd) as Hlen.
  rewrite Hrows in Hsil. rewrite Hlen in Hsil.
  inversion Hsil as [Hsil']. clear Hsil. rewrite <- Hsil' in Hm. clear Hsil'.
  cbv zeta. rewrite Hm, Hrows, Hlen.
  set (cap := arg_silhouette_sample args) in *.
  set (n := Z.of_nat (length tracks)) in *.
  destruct ((50 <=? Z.min cap n) && (2 <=? arg_k args)) eqn:Hc.
  - apply andb_true_iff in Hc. destruct Hc as [Hc1 Hc2].
    apply Z.leb_le in Hc1. apply Z.leb_le in Hc2.
    split; [|split].
    + intros [H|[H|H]]; lia.
    + intros _ _ _. reflexivity.
    + intros s H.
      destruct (silhouette_score sk _ _) eqn:Hs; [|discriminate].
      inversion H. subst.
      repeat split; try lia; apply (Hrange _ _ _ Hs).
  - assert (Hsmall : n < 50 \/ arg_k args < 2 \/ cap < 50).
    { apply andb_false_iff in Hc. destruct Hc as [Hc|Hc]; apply Z.leb_gt in Hc; lia. }
    split; [|split].
    + reflexivity.
    + intros Hn Hk Hcap. exfalso. lia.
    + discriminate.
Qed.

Lemma toy_sklearn_rows fd :
  length (scaler_fit_transform toy_sklearn (dv_fit_transform toy_sklearn fd))
  = length fd.
Proof. simpl. apply length_map. Qed.

Lemma toy_sklearn_range X l s :
  silhouette_score toy_sklearn X l = Ok s ->
  B64.leb (B64.of_Z (-1)) s = true /\ B64.leb s B64.one = true.
Proof.
  simpl. destruct l as [|a t]; [discriminate|].
  destruct (forallb (Z.eqb a) t); [discriminate|].
  intros H. inversion H. split; reflexivity.
Qed.

(** The theorem at 60 tracks with the stand-in library. *)
Lemma silhouette_null_or_score_witness :
  match main toy_sklearn plain_runtime args_default (JList (repeat track_plain 60)) with
  | Raise _ => True
  | Ok (_, m) =>
      exists fd labels,
        mapM (featurize_track plain_runtime) (repeat track_plain 60) = Ok fd /\
        km_fit_predict toy_sklearn (arg_k args_default)
          (scaler_fit_transform toy_sklearn (dv_fit_transform toy_sklearn fd))
          = Ok labels /\
        let Xs := scaler_fit_transform toy_sklearn (dv_fit_transform toy_sklearn fd) in
        let n := Z.of_nat (length (repeat track_plain 60)) in
        let cap := arg_silhouette_sample args_default in
        let idx := random_sample toy_sklearn (length Xs) (Z.to_nat (Z.min cap n)) in
        (n < 50 \/ arg_k args_default < 2 \/ cap < 50 -> silhouette_sample m = None) /\
        (50 <= n -> 2 <= arg_k args_default -> 50 <= cap ->
         silhouette_sample m =
         match silhouette_score toy_sklearn (fancy_index [] Xs idx)
                 (fancy_index 0 labels idx) with
         | Ok s => Some s
         | Raise _ => None
         end) /\
        (forall s, silhouette_sample m = Some s ->
           50 <= n /\ 2 <= arg_k args_default /\ 50 <= cap /\
           B64.leb (B64.of_Z (-1)) s = true /\ B64.leb s B64.one = true)
  end.
Proof.
  exact (silhouette_null_or_score toy_sklearn plain_runtime args_default
           (repeat track_plain 60) toy_sklearn_rows toy_sklearn_range).
Defined.

Lemma sampled_silhouette_total sk args Xs labels :
  exists sil, sampled_silhouette sk args Xs labels = Ok sil.
Proof. rewrite sampled_silhouette_spec. eexists. reflexivity. Qed.

Lemma featurize_track_is_dict rt t f :
  featurize_track rt t = Ok f -> exists d, t = JDict d.
Proof.
  intros H. destruct t; try (eexists; reflexivity);
    unfold featurize_track, extract_spotify_features in H; simpl in H;
    discriminate.
Qed.

Lemma make_assignment_dict d lab :
  make_assignment (JDict d, lab) =
  Ok {| spotifyId := dict_get d "id"; name := dict_get d "name";
        artists := dict_get d "artists"; cluster := lab |}.
Proof. reflexivity. Qed.

(** Lines 124-132 over dict tracks: as many records as the shorter of the
    two lists, the record at place [i] built from track [i] and label [i]. *)
Lemma assignments_of_dicts (tracks : list json) (labels : list Z) :
  (forall t, In t tracks -> exists d, t = JDict d) ->
  exists asg, mapM make_assignment (combine tracks labels) = Ok asg /\
    length asg = Nat.min (length tracks) (length labels) /\
    forall i t lab, tracks !! i = Some t -> labels !! i = Some lab ->
      exists a, asg !! i = Some a /\
        py_get t "id" = Ok (spotifyId a) /\
        py_get t "name" = Ok (name a) /\
        py_get t "artists" = Ok (artists a) /\
        cluster a = lab.
Proof.
  revert labels. induction tracks as [|t ts IH]; intros labels Hd.
  - exists []. simpl. repeat split; auto. intros i t lab H. destruct i; discriminate.
  - destruct labels as [|l ls].
    + exists []. simpl. repeat split; auto.
      intros i t' lab _ H. destruct i; discriminate.
    + destruct (Hd t (or_introl eq_refl)) as [d ->].
      destruct (IH ls) as [asg [Ha [Hlen Hi]]].
      { intros t' Ht'. apply Hd. right. exact Ht'. }
      simpl combine. cbn [mapM]. rewrite make_assignment_dict. cbn [Py.bind].
      rewrite Ha. cbn [Py.bind]. eexists. split; [reflexivity|]. split.
      * simpl. rewrite Hlen. reflexivity.
      * intros [|i] t' lab Ht Hl; simpl in *.
        -- inversion Ht. inversion Hl. subst. eexists. split; [reflexivity|].
           simpl. auto.
        -- apply (Hi i t' lab Ht Hl).
Qed.

(** C8: when every track is featurized and the clustering returns one
    label per track, [main] returns, the assignment list has exactly as
    many records as the catalog has tracks, and record [i] holds the
    identifier, name and artists of track [i] with label [i]. *)
Theorem assignments_follow_input sk rt args tracks fd labels
  (Hfd : mapM (featurize_track rt) tracks = Ok fd)
  (Hkm : km_fit_predict sk (arg_k args)
           (scaler_fit_transform sk (dv_fit_transform sk fd)) = Ok labels)
  (Hlen : length labels = length tracks) :
  exists asg m, main sk rt args (JList tracks) = Ok (asg, m) /\
    length asg = length tracks /\
    forall i t, tracks !! i = Some t ->
      exists lab a, labels !! i = Some lab /\ asg !! i = Some a /\
        py_get t "id" = Ok (spotifyId a) /\
        py_get t "name" = Ok (name a) /\
        py_get t "artists" = Ok (artists a) /\
        cluster a = lab.
Proof.
  assert (Hd : forall t, In t tracks -> exists d, t = JDict d).
  { intros t Ht. apply list_elem_of_In in Ht.
    apply list_elem_of_lookup in Ht. destruct Ht as [i Hi].
    destruct (mapM_lookup _ _ _ Hfd i t Hi) as [f [_ Hf]].
    apply (featurize_track_is_dict rt t f Hf). }
  destruct (assignments_of_dicts tracks labels Hd) as [asg [Ha [Hl Hi]]].
  destruct (sampled_silhouette_total sk args
              (scaler_fit_transform sk (dv_fit_transform sk fd)) labels) as [sil Hs].
  unfold main. rewrite Hfd. cbn [Py.bind]. rewrite Hkm. cbn [Py.bind].
  rewrite Hs. cbn [Py.bind]. rewrite Ha. cbn [Py.bind].
  eexists. eexists. split; [reflexivity|]. split.
  - rewrite Hl, Hlen. apply Nat.min_id.
  - intros i t Ht.
    assert (Hlt : (i < length labels)%nat).
    { rewrite Hlen. apply lookup_lt_Some in Ht. exact Ht. }
    apply lookup_lt_is_Some in Hlt. destruct Hlt as [lab Hlab].
    destruct (Hi i t lab Ht Hlab) as [a Ha'].
    exists lab, a. tauto.
Qed.

Lemma three_features_ok :
  mapM (featurize_track plain_runtime) three_tracks = Ok three_features.
Proof. apply is_ok_default. vm_compute. reflexivity. Qed.

Lemma assignments_follow_input_witness :
  exists asg m,
    main toy_sklearn plain_runtime args_default (JList three_tracks) = Ok (asg, m) /\
    length asg = length three_tracks /\
    forall i t, three_tracks !! i = Some t ->
      exists lab a, [0; 1; 0] !! i = Some lab /\ asg !! i = Some a /\
        py_get t "id" = Ok (spotifyId a) /\
        py_get t "name" = Ok (name a) /\
        py_get t "artists" = Ok (artists a) /\
        cluster a = lab.
Proof.
  apply (assignments_follow_input toy_sklearn plain_runtime args_default
           three_tracks three_features [0; 1; 0]).
  - exact three_features_ok.
  - vm_compute. reflexivity.
  - reflexivity.
Defined.

(** The three records, in input order. *)
Example assignments_three_tracks :
  match main toy_sklearn plain_runtime args_default (JList three_tracks) with
  | Ok (asg, _) =>
      map (fun a => (spotifyId a, cluster a)) asg =
      [(JStr "t3", 0); (JStr "t4", 1); (JStr "t1", 0)]
  | Raise _ => False
  end.
Proof. vm_compute. reflexivity. Qed.

End TrainKMeansFacts.

(** ** The descriptor methods, in any arithmetic *)

Module DescriptorFacts.

Import SpotifyFeaturesDSP Samples PyFacts.

Section AnyArithmetic.

Context {F : Type} {N : Num F}.
Variable lib : Librosa F.


Lemma length_np_roll (l : list F) (k : nat) : length (np_roll l k) = length l.
Proof.
  unfold np_roll. rewrite length_app, length_skipn, length_firstn. lia.
Qed.

Lemma argmax_from_bound (l : list F) (best : F) (bi i : nat) :
  (bi < i)%nat -> (argmax_from best bi i l < i + length l)%nat.
Proof.
  revert best bi i. induction l as [|x t IH]; intros best bi i Hlt; simpl.
  - lia.
  - destruct (is_nan best); [lia|].
    destruct (negb (x <=? best)%num).
    + specialize (IH x i (S i)). lia.
    + specialize (IH best bi (S i)). lia.
Qed.

Lemma np_argmax_bound (l : list F) (i : nat) :
  np_argmax l = Ok i -> (i < length l)%nat.
Proof.
  destruct l as [|x t]; simpl; [discriminate|].
  intros H. inversion H. pose proof (argmax_from_bound t x 0 1). lia.
Qed.

Lemma rotation_corrs_total (a t : list F) :
  length a = length t ->
  exists corrs, rotation_corrs a t = Ok corrs /\ length corrs = 12%nat.
Proof.
  intros Hlen. unfold rotation_corrs.
  assert (H : forall ks, exists corrs,
             mapM (fun k => np_dot a (np_roll t k)) ks = Ok corrs /\
             length corrs = length ks).
  { induction ks as [|k ks IH]; simpl.
    - exists []. auto.
    - unfold np_dot at 1. rewrite length_np_roll, Hlen, Nat.eqb_refl.
      cbn [Py.bind]. destruct IH as [corrs [Hc Hl]]. rewrite Hc. cbn [Py.bind].
      eexists. split; [reflexivity|]. simpl. rewrite Hl. reflexivity. }
  destruct (H (seq 0 12)) as [corrs [Hc Hl]]. exists corrs. split; [exact Hc|].
  rewrite Hl. reflexivity.
Qed.

(** [best_corr] returns, with a rotation index below 12, the place and the
    value [np.argmax] and [np.max] give on the 12 correlations. *)
Lemma best_corr_total (a t : list F) :
  length a = length t ->
  exists corrs k c,
    rotation_corrs a t = Ok corrs /\ np_argmax corrs = Ok k /\
    np_max corrs = Ok c /\ best_corr a t = Ok (k, c) /\ (k < 12)%nat.
Proof.
  intros Hlen. unfold best_corr.
  destruct (rotation_corrs_total a t Hlen) as [corrs [Hc Hl]].
  rewrite Hc. cbn [Py.bind].
  destruct corrs as [|c0 cs]; [discriminate|].
  cbn [np_argmax np_max Py.bind].
  exists (c0 :: cs). eexists. eexists.
  repeat split.
  pose proof (argmax_from_bound cs c0 0 1). simpl in Hl. lia.
Qed.

Lemma length_chroma_profile (self : AudioFeatureExtractor F) :
  length (chroma_profile lib self) = 12%nat.
Proof. unfold chroma_profile. rewrite !length_map. reflexivity. Qed.

Lemma length_normalized (v : list F) : length (normalized v) = length v.
Proof. unfold normalized. apply length_map. Qed.

(** [key_and_mode] returns: both families have a best rotation, and the
    result is the choice of lines 138-145 between them. *)
Lemma key_and_mode_returns (self : AudioFeatureExtractor F) :
  exists kM cM km cm,
    best_corr (chroma_profile lib self) (normalized major_profile) = Ok (kM, cM) /\
    best_corr (chroma_profile lib self) (normalized minor_profile) = Ok (km, cm) /\
    (kM < 12)%nat /\ (km < 12)%nat /\
    key_and_mode lib self = Ok (pick_mode kM cM km cm).
Proof.
  destruct (best_corr_total (chroma_profile lib self) (normalized major_profile))
    as [? [kM [cM [_ [_ [_ [HM HkM]]]]]]].
  { rewrite length_chroma_profile, length_normalized. reflexivity. }
  destruct (best_corr_total (chroma_profile lib self) (normalized minor_profile))
    as [? [km [cm [_ [_ [_ [Hm Hkm]]]]]]].
  { rewrite length_chroma_profile, length_normalized. reflexivity. }
  exists kM, cM, km, cm. repeat split; auto.
  unfold key_and_mode. rewrite HM. cbn [Py.bind]. rewrite Hm. reflexivity.
Qed.

(** The key is one of the two best rotations and the mode is 0 or 1, in
    any arithmetic. *)
Lemma key_and_mode_ranges (self : AudioFeatureExtractor F) :
  exists key mode conf,
    key_and_mode lib self = Ok (key, mode, conf) /\
    (key < 12)%nat /\ (mode = 0 \/ mode = 1).
Proof.
  destruct (key_and_mode_returns self) as [kM [cM [km [cm [_ [_ [HM [Hm Hk]]]]]]]].
  rewrite Hk. unfold pick_mode.
  destruct (cM >=? cm)%num; eexists; eexists; eexists;
    (split; [reflexivity|]); auto.
Qed.

End AnyArithmetic.

(** On silence the beat tracker finds no beat: the guess is the default. *)
Example time_signature_silence :
  time_signature_guess (N:=b64_num) silence_librosa silence = Ok (4, B64.zero).
Proof. vm_compute. reflexivity. Qed.

(** Nine beats with equal accents: the standard deviation is 0 and the
    guess is the default. *)
Example time_signature_flat :
  np_std (beat_accents (N:=b64_num) flat_librosa dc03) = B64.zero /\
  time_signature_guess (N:=b64_num) flat_librosa dc03 = Ok (4, B64.zero).
Proof. split; vm_compute; reflexivity. Qed.

(** Eight beats whose accents repeat every four beats: the guess is 4. *)
Example time_signature_pulse :
  match time_signature_guess (N:=b64_num) pulse_librosa dc03 with
  | Ok (ts, conf) => ts = 4 /\ B64.ltb B64.zero conf = true
  | Raise _ => False
  end.
Proof. vm_compute. split; reflexivity. Qed.

(** All chroma energy on C, E and G: C major. *)
Example key_and_mode_c_major :
  match key_and_mode (N:=b64_num) pulse_librosa dc03 with
  | Ok (key, mode, conf) => key = 0%nat /\ mode = 1 /\ B64.ltb B64.zero conf = true
  | Raise _ => False
  end.
Proof. vm_compute. repeat split; reflexivity. Qed.

End DescriptorFacts.

(** ** The descriptor methods in exact arithmetic *)

Module ExactFacts.

Import SpotifyFeaturesDSP Samples PyFacts DescriptorFacts.

Local Open Scope R_scope.

Lemma Rleb_true x y : Rleb x y = true <-> x <= y.
Proof. unfold Rleb. destruct (Rle_dec x y); split; intros; try lra; try discriminate; reflexivity. Qed.
Lemma Rleb_false x y : Rleb x y = false <-> y < x.
Proof. unfold Rleb. destruct (Rle_dec x y); split; intros; try lra; try discriminate; reflexivity. Qed.
Lemma Rltb_true x y : Rltb x y = true <-> x < y.
Proof. unfold Rltb. destruct (Rlt_dec x y); split; intros; try lra; try discriminate; reflexivity. Qed.
Lemma Rltb_false x y : Rltb x y = false <-> y <= x.
Proof. unfold Rltb. destruct (Rlt_dec x y); split; intros; try lra; try discriminate; reflexivity. Qed.

Lemma exact_is_nan (x : R) : is_nan x = false.
Proof. unfold is_nan. simpl. replace (Rleb x x) with true; [reflexivity|]. symmetry. apply Rleb_true. lra. Qed.

Lemma exact_eps12_eq : eps12 (N:=exact_num) = 1 / 1000000000000.
Proof. reflexivity. Qed.

Lemma exact_eps12_pos : 0 < eps12 (N:=exact_num).
Proof. rewrite exact_eps12_eq. lra. Qed.

Lemma exact_sum_acc (l : list R) (a : R) :
  fold_left Rplus l a = a + fold_left Rplus l 0.
Proof.
  revert a. induction l as [|x t IH]; intros a; simpl.
  - lra.
  - rewrite (IH (a + x)), (IH (0 + x)). lra.
Qed.

Lemma exact_np_sum_cons (x : R) (l : list R) : np_sum (x :: l) = x + np_sum l.
Proof. unfold np_sum. simpl. rewrite exact_sum_acc. unfold zero. simpl. lra. Qed.

Lemma exact_np_sum_nil : np_sum (F:=R) [] = 0.
Proof. reflexivity. Qed.

Lemma exact_np_sum_le (l : list R) (M : R) :
  Forall (fun x => x <= M) l -> np_sum l <= INR (length l) * M.
Proof.
  induction l as [|x t IH]; intros H.
  - rewrite exact_np_sum_nil. simpl. lra.
  - rewrite exact_np_sum_cons. inversion H; subst.
    specialize (IH H3). rewrite length_cons, S_INR. lra.
Qed.

Lemma exact_np_sum_nonneg (l : list R) :
  Forall (fun x => 0 <= x) l -> 0 <= np_sum l.
Proof.
  induction l as [|x t IH]; intros H.
  - rewrite exact_np_sum_nil. lra.
  - rewrite exact_np_sum_cons. inversion H; subst. specialize (IH H3). lra.
Qed.

Lemma exact_np_mean_eq (l : list R) : np_mean l = np_sum l / INR (length l).
Proof. unfold np_mean. simpl. rewrite <- INR_IZR_INZ. reflexivity. Qed.

Lemma exact_np_mean_nonneg (l : list R) :
  Forall (fun x => 0 <= x) l -> 0 <= np_mean l.
Proof.
  intros H. rewrite exact_np_mean_eq.
  destruct l as [|x t].
  - rewrite exact_np_sum_nil. simpl. unfold Rdiv. rewrite Rmult_0_l. lra.
  - apply Rmult_le_pos.
    + apply exact_np_sum_nonneg. exact H.
    + left. apply Rinv_0_lt_compat. apply lt_0_INR. simpl. lia.
Qed.

Lemma exact_np_mean_le (l : list R) (M : R) :
  l <> [] -> Forall (fun x => x <= M) l -> np_mean l <= M.
Proof.
  intros Hne H. rewrite exact_np_mean_eq.
  assert (Hn : 0 < INR (length l)).
  { apply lt_0_INR. destruct l; [congruence|simpl; lia]. }
  apply Rmult_le_reg_r with (INR (length l)); [exact Hn|].
  unfold Rdiv. rewrite Rmult_assoc, Rinv_l by lra. rewrite Rmult_1_r.
  rewrite Rmult_comm. apply exact_np_sum_le. exact H.
Qed.

Lemma exact_squares_nonneg (l : list R) : Forall (fun x => 0 <= x) (np_square l).
Proof.
  unfold np_square. apply Forall_forall. intros x Hx.
  apply list_elem_of_In in Hx. apply in_map_iff in Hx. destruct Hx as [y [<- _]]. simpl. nra.
Qed.

Lemma ratio_bounds (a b e : R) :
  0 <= a -> 0 <= b -> 0 < e ->
  0 <= a / (a + b + e) < 1 /\ (a / (a + b + e) = 0 <-> a = 0).
Proof.
  intros Ha Hb He.
  assert (Hd : 0 < a + b + e) by lra.
  split; [split|split].
  - apply Rmult_le_pos; [lra|]. left. apply Rinv_0_lt_compat. exact Hd.
  - apply Rmult_lt_reg_r with (a + b + e); [exact Hd|].
    unfold Rdiv. rewrite Rmult_assoc, Rinv_l by lra. lra.
  - intros H0. apply Rmult_eq_compat_r with (r := a + b + e) in H0.
    unfold Rdiv in H0. rewrite Rmult_assoc, Rinv_l in H0 by lra. lra.
  - intros ->. unfold Rdiv. apply Rmult_0_l.
Qed.


Lemma exact_np_maximum (a b : R) : np_maximum a b = Rmax a b.
Proof.
  unfold np_maximum. rewrite exact_is_nan, orb_false_r. simpl.
  unfold Rmax. destruct (Rleb b a) eqn:E; destruct (Rle_dec a b); try reflexivity.
  - apply Rleb_true in E. lra.
  - apply Rleb_false in E. lra.
Qed.

Lemma exact_py_max (a b : R) : py_max a b = Rmax a b.
Proof.
  unfold py_max. simpl. unfold Rmax.
  destruct (Rltb a b) eqn:E; destruct (Rle_dec a b); try reflexivity.
  - apply Rltb_true in E. lra.
  - apply Rltb_false in E. lra.
Qed.

Lemma exact_fold_maximum (t : list R) (x : R) :
  x <= fold_left np_maximum t x /\
  Forall (fun v => v <= fold_left np_maximum t x) t.
Proof.
  revert x. induction t as [|v t IH]; intros x; simpl.
  - split; [lra|constructor].
  - destruct (IH (np_maximum x v)) as [H1 H2].
    rewrite exact_np_maximum in *.
    pose proof (Rmax_l x v). pose proof (Rmax_r x v).
    split; [lra|]. constructor; [lra|exact H2].
Qed.

Lemma exact_np_max_upper (l : list R) :
  l <> [] -> exists M, np_max l = Ok M /\ Forall (fun v => v <= M) l.
Proof.
  destruct l as [|x t]; [congruence|]. intros _. simpl.
  eexists. split; [reflexivity|].
  destruct (exact_fold_maximum t x) as [H1 H2]. constructor; assumption.
Qed.

Lemma exact_np_max_zeros (l : list R) :
  l <> [] -> Forall (fun v => v = 0) l -> np_max l = Ok 0.
Proof.
  destruct l as [|x t]; [congruence|]. intros _ H. inversion H; subst. simpl.
  f_equal. clear H. induction t as [|v t IH]; [reflexivity|].
  inversion H3; subst. simpl. rewrite exact_np_maximum, Rmax_left by lra.
  apply IH. assumption.
Qed.

Lemma exact_ln10_pos : 0 < ln 10.
Proof. rewrite <- ln_1. apply ln_increasing; lra. Qed.

Lemma exact_log10_nonneg (x : R) : 1 <= x -> 0 <= Rlog10 x.
Proof.
  intros Hx. unfold Rlog10. apply Rmult_le_pos.
  - destruct Hx as [Hx| <-].
    + left. rewrite <- ln_1. apply ln_increasing; lra.
    + rewrite ln_1. lra.
  - left. apply Rinv_0_lt_compat, exact_ln10_pos.
Qed.

Lemma exact_twenty : of_dec (Num:=exact_num) 20 0 = 20.
Proof. reflexivity. Qed.

(** In exact arithmetic the root mean square is at most the peak. *)
Lemma exact_rms_le_peak (y : list R) (M : R) :
  y <> [] -> Forall (fun v => v <= M) (np_abs y) ->
  sqrt (np_mean (np_square y)) <= M.
Proof.
  intros Hne HM.
  assert (H0 : 0 <= M).
  { destruct y as [|x t]; [congruence|]. inversion HM; subst.
    pose proof (Rabs_pos x). simpl in *. lra. }
  rewrite <- (sqrt_square M H0). apply sqrt_le_1.
  - apply exact_np_mean_nonneg, exact_squares_nonneg.
  - nra.
  - apply exact_np_mean_le.
    + destruct y; [congruence|discriminate].
    + unfold np_square. apply Forall_forall. intros v Hv.
      apply list_elem_of_In in Hv. apply in_map_iff in Hv. destruct Hv as [x [<- Hx]].
      rewrite Forall_forall in HM. specialize (HM (Rabs x)).
      assert (Hin : Rabs x ∈ np_abs y).
      { apply list_elem_of_In. unfold np_abs. apply in_map. exact Hx. }
      specialize (HM Hin). simpl in *.
      pose proof (Rabs_pos x).
      rewrite <- (Rabs_mult x x) at 1 || idtac.
      replace (x * x) with (Rabs x * Rabs x).
      * nra.
      * destruct (Rcase_abs x) as [Hx0|Hx0].
        -- rewrite Rabs_left by lra. lra.
        -- rewrite Rabs_right by lra. lra.
Qed.

Lemma log10_quotient_nonneg (p r : R) : 0 < r -> r <= p -> 0 <= 20 * Rlog10 (p / r).
Proof.
  intros Hr Hpr. apply Rmult_le_pos; [lra|]. apply exact_log10_nonneg.
  apply Rmult_le_reg_r with r; [exact Hr|].
  unfold Rdiv. rewrite Rmult_assoc, Rinv_l by lra. lra.
Qed.

Lemma log10_quotient_same (e : R) : 0 < e -> 20 * Rlog10 (e / e) = 0.
Proof.
  intros He. unfold Rdiv at 1. rewrite Rinv_r by lra.
  unfold Rlog10. rewrite ln_1. unfold Rdiv. lra.
Qed.

Lemma exact_pick_mode kM cM km cm :
  exists key mode conf,
    pick_mode kM cM km cm = (key, mode, conf) /\
    0 <= conf /\ conf = Rabs (cM - cm) /\
    ((mode = 1%Z /\ key = kM /\ cm <= cM) \/
     (mode = 0%Z /\ key = km /\ cM < cm)).
Proof.
  unfold pick_mode. simpl.
  destruct (Rleb cm cM) eqn:E.
  - apply Rleb_true in E. exists kM, 1%Z, (cM - cm). repeat split; try lra.
    + rewrite Rabs_right; lra.
    + left. repeat split; lra.
  - apply Rleb_false in E. exists km, 0%Z, (cm - cM). repeat split; try lra.
    + rewrite Rabs_left; lra.
    + right. repeat split; lra.
Qed.

(** The running best of [np.argmax] is the running maximum of [np.max]. *)
Lemma exact_argmax_from (t pre : list R) (best : R) (bi : nat) :
  pre !! bi = Some best ->
  (pre ++ t)%list !! argmax_from best bi (length pre) t = Some (fold_left np_maximum t best).
Proof.
  revert pre best bi. induction t as [|v t IH]; intros pre best bi Hpre; simpl.
  - rewrite app_nil_r. exact Hpre.
  - rewrite exact_is_nan, exact_np_maximum. simpl.
    replace (pre ++ v :: t)%list with ((pre ++ [v]) ++ t)%list by (rewrite <- app_assoc; reflexivity).
    replace (S (length pre)) with (length (pre ++ [v])%list) by (rewrite length_app; simpl; lia).
    destruct (Rleb v best) eqn:E; simpl.
    + apply Rleb_true in E. rewrite Rmax_left by lra.
      apply IH. apply lookup_app_l_Some. exact Hpre.
    + apply Rleb_false in E. rewrite Rmax_right by lra.
      rewrite length_app. simpl. replace (length pre + 1)%nat with (length (pre ++ [v])%list)
        by (rewrite length_app; reflexivity).
      replace (argmax_from v (length pre) (length (pre ++ [v])%list) t)
        with (argmax_from v (length pre) (length (pre ++ [v])%list) t) by reflexivity.
      apply IH. rewrite lookup_app_r by lia. rewrite Nat.sub_diag. reflexivity.
Qed.

Lemma exact_argmax_max (l : list R) (k : nat) (c : R) :
  np_argmax l = Ok k -> np_max l = Ok c ->
  l !! k = Some c /\ Forall (fun v => v <= c) l.
Proof.
  destruct l as [|x t]; simpl; [discriminate|].
  intros Hk Hc. inversion Hk. inversion Hc. subst. split.
  - apply (exact_argmax_from t [x] x 0). reflexivity.
  - destruct (exact_fold_maximum t x). constructor; assumption.
Qed.


Lemma exact_np_sum_zeros (n : nat) : np_sum (repeat (0:R) n) = 0.
Proof.
  induction n as [|n IH]; [reflexivity|].
  simpl repeat. rewrite exact_np_sum_cons, IH. lra.
Qed.

Lemma exact_np_mean_zeros (n : nat) : np_mean (repeat (0:R) n) = 0.
Proof.
  rewrite exact_np_mean_eq, exact_np_sum_zeros. unfold Rdiv. apply Rmult_0_l.
Qed.

Lemma exact_zip_mul_zero (a b : list R) :
  Forall (fun x => x = 0) a -> np_sum (zip_mul a b) = 0.
Proof.
  revert b. induction a as [|x a IH]; intros b H; [reflexivity|].
  destruct b as [|y b]; [reflexivity|].
  inversion H; subst. simpl zip_mul. rewrite exact_np_sum_cons, IH by assumption.
  simpl. lra.
Qed.

Lemma exact_rotation_corrs_zero (a t : list R) :
  Forall (fun x => x = 0) a -> length a = length t ->
  rotation_corrs a t = Ok (repeat 0 12).
Proof.
  intros Hz Hlen. unfold rotation_corrs.
  assert (H : forall ks, mapM (fun k => np_dot a (np_roll t k)) ks
                         = Ok (repeat 0 (length ks))).
  { induction ks as [|k ks IH]; [reflexivity|].
    simpl. unfold np_dot at 1. rewrite length_np_roll, Hlen, Nat.eqb_refl.
    cbn [Py.bind]. rewrite IH. cbn [Py.bind].
    rewrite (exact_zip_mul_zero _ _ Hz). reflexivity. }
  apply (H (seq 0 12)).
Qed.

Lemma exact_argmax_from_const (n : nat) (x : R) (bi i : nat) :
  argmax_from x bi i (repeat x n) = bi.
Proof.
  revert i. induction n as [|n IH]; intros i; [reflexivity|].
  simpl. rewrite exact_is_nan. simpl.
  replace (Rleb x x) with true by (symmetry; apply Rleb_true; lra).
  simpl. apply IH.
Qed.

Lemma exact_fold_maximum_const (n : nat) (x : R) :
  fold_left np_maximum (repeat x n) x = x.
Proof.
  induction n as [|n IH]; [reflexivity|].
  simpl. rewrite exact_np_maximum, Rmax_left by lra. exact IH.
Qed.

(** An all-zero chroma profile correlates to 0 with every rotation: the
    best rotation is the first one. *)
Lemma exact_best_corr_zero (a t : list R) :
  Forall (fun x => x = 0) a -> length a = length t ->
  best_corr a t = Ok (0%nat, 0).
Proof.
  intros Hz Hlen. unfold best_corr.
  rewrite (exact_rotation_corrs_zero a t Hz Hlen). cbn [Py.bind].
  change (repeat 0 12) with (0 :: repeat 0 11).
  cbn [np_argmax np_max Py.bind].
  rewrite exact_argmax_from_const, exact_fold_maximum_const. reflexivity.
Qed.

Lemma silence_chroma_zero :
  Forall (fun x : R => x = 0) (chroma_profile silence_librosa silence).
Proof.
  unfold chroma_profile. apply Forall_forall. intros x Hx.
  apply list_elem_of_In in Hx. apply in_map_iff in Hx. destruct Hx as [m [<- Hm]].
  apply in_map_iff in Hm. destruct Hm as [i [<- _]].
  change (chroma_cqt silence_librosa (self_y silence) (self_sr silence) i)
    with (repeat (0:R) 4).
  rewrite exact_np_mean_zeros. simpl. unfold Rdiv. apply Rmult_0_l.
Qed.

(** C9, amended: read in exact arithmetic, [crest_factor_db] of a non-empty
    signal returns a value that is at least 0 (the guarded peak is at least
    the guarded root mean square), and exactly 0 when every sample is 0. *)
Theorem crest_factor_exact_nonneg (self : AudioFeatureExtractor R) :
  self_y self <> [] ->
  exists v, crest_factor_db Rlog10 self = Ok v /\ 0 <= v /\
    (Forall (fun x => x = 0) (self_y self) -> v = 0).
Proof.
  intros Hne. unfold crest_factor_db, guarded_peak, guarded_rms, peak.
  assert (Hne' : np_abs (self_y self) <> []).
  { destruct (self_y self); [congruence|discriminate]. }
  destruct (exact_np_max_upper (np_abs (self_y self)) Hne') as [M [HM HMu]].
  rewrite HM. cbn [Py.bind]. eexists. split; [reflexivity|].
  rewrite exact_twenty, !exact_py_max.
  pose proof (exact_rms_le_peak _ _ Hne HMu) as Hr.
  pose proof exact_eps12_pos as He.
  change (f_sqrt (np_mean (np_square (self_y self))))
    with (sqrt (np_mean (np_square (self_y self)))).
  set (r0 := sqrt (np_mean (np_square (self_y self)))) in *.
  set (e := eps12 (N:=exact_num)) in *.
  change (0 <= 20 * Rlog10 (Rmax M e / Rmax r0 e) /\
          (Forall (fun x : R => x = 0) (self_y self) ->
           20 * Rlog10 (Rmax M e / Rmax r0 e) = 0)).
  assert (Hr0 : 0 <= r0) by apply sqrt_pos.
  clearbody r0 e.
  split.
  - apply log10_quotient_nonneg.
    + pose proof (Rmax_r r0 e). lra.
    + apply Rmax_lub.
      * pose proof (Rmax_l M e). lra.
      * apply Rmax_r.
  - intros Hz.
    assert (HM0 : M = 0).
    { assert (H : np_max (np_abs (self_y self)) = Ok 0).
      { apply exact_np_max_zeros; [exact Hne'|].
        unfold np_abs. apply Forall_forall. intros v Hv.
        apply list_elem_of_In in Hv. apply in_map_iff in Hv.
        destruct Hv as [x [<- Hx]]. rewrite Forall_forall in Hz.
        apply list_elem_of_In in Hx. rewrite (Hz x Hx). apply Rabs_R0. }
      congruence. }
    subst M. rewrite (Rmax_right 0 e) by lra. rewrite (Rmax_right r0 e) by lra.
    apply log10_quotient_same. exact He.
Qed.


Lemma crest_factor_exact_nonneg_witness :
  exists v, crest_factor_db Rlog10 dc03 = Ok v /\ 0 <= v /\
    (Forall (fun x => x = 0) (self_y dc03) -> v = 0).
Proof. apply (crest_factor_exact_nonneg dc03). discriminate. Defined.

Section Exact.

Variable lib : Librosa R.

(** C7, amended: [harmonic_percussive_ratio] returns
    eh / (eh + ep + 1e-12) for the mean squares eh and ep of the harmonic and
    percussive parts; in exact arithmetic this value lies in the half-open
    interval from 0 (included) to 1 (excluded), and it is 0 exactly when the
    harmonic energy eh is 0. *)
Theorem harmonic_ratio_half_open (self : AudioFeatureExtractor R) :
  let '(y_harm, y_perc) := effects_hpss lib (self_y self) in
  let eh := np_mean (np_square y_harm) in
  let ep := np_mean (np_square y_perc) in
  harmonic_percussive_ratio lib self = eh / (eh + ep + R_of_dec 1 (-12)) /\
  0 <= harmonic_percussive_ratio lib self < 1 /\
  (harmonic_percussive_ratio lib self = 0 <-> eh = 0).
Proof.
  unfold harmonic_percussive_ratio.
  destruct (effects_hpss lib (self_y self)) as [yh yp].
  split; [reflexivity|].
  apply ratio_bounds.
  - apply exact_np_mean_nonneg, exact_squares_nonneg.
  - apply exact_np_mean_nonneg, exact_squares_nonneg.
  - apply exact_eps12_pos.
Qed.

(** C6: in exact arithmetic [key_and_mode] returns a triple (key, mode,
    confidence) with key below 12, mode 0 or 1 and confidence at least 0.
    Each family's best correlation is the largest of its 12 rotation
    correlations and stands at its best rotation; the confidence is the
    absolute value of the difference of the two best correlations; the
    major family wins (mode 1) when its best correlation is at least the
    minor one, and the key is the winner's best rotation. *)
Theorem key_and_mode_exact (self : AudioFeatureExtractor R) :
  exists key mode conf kM cM km cm corrsM corrsm,
    key_and_mode lib self = Ok (key, mode, conf) /\
    (key < 12)%nat /\ (mode = 0%Z \/ mode = 1%Z) /\ 0 <= conf /\
    rotation_corrs (chroma_profile lib self) (normalized major_profile) = Ok corrsM /\
    corrsM !! kM = Some cM /\ Forall (fun v => v <= cM) corrsM /\
    rotation_corrs (chroma_profile lib self) (normalized minor_profile) = Ok corrsm /\
    corrsm !! km = Some cm /\ Forall (fun v => v <= cm) corrsm /\
    conf = Rabs (cM - cm) /\
    ((mode = 1%Z /\ key = kM /\ cm <= cM) \/ (mode = 0%Z /\ key = km /\ cM < cm)).
Proof.
  destruct (best_corr_total (chroma_profile lib self) (normalized major_profile))
    as [corrsM [kM [cM [HcM [HaM [HmM [HM HkM]]]]]]].
  { rewrite length_chroma_profile, length_normalized. reflexivity. }
  destruct (best_corr_total (chroma_profile lib self) (normalized minor_profile))
    as [corrsm [km [cm [Hcm [Ham [Hmm [Hm Hkm]]]]]]].
  { rewrite length_chroma_profile, length_normalized. reflexivity. }
  destruct (exact_argmax_max _ _ _ HaM HmM) as [HlM HuM].
  destruct (exact_argmax_max _ _ _ Ham Hmm) as [Hlm Hum].
  destruct (exact_pick_mode kM cM km cm) as [key [mode [conf [Hp [H0 [Habs Hcase]]]]]].
  exists key, mode, conf, kM, cM, km, cm, corrsM, corrsm.
  split.
  { unfold key_and_mode. rewrite HM. cbn [Py.bind]. rewrite Hm. cbn [Py.bind].
    rewrite Hp. reflexivity. }
  split. { destruct Hcase as [[_ [-> _]]|[_ [-> _]]]; assumption. }
  split. { destruct Hcase as [[-> _]|[-> _]]; auto. }
  repeat split; auto.
Qed.

(** C10: when the best major correlation equals the best minor one,
    [key_and_mode] returns the major family's best rotation, mode 1 and
    confidence exactly 0. *)
Theorem key_and_mode_tie_is_major (self : AudioFeatureExtractor R) kM cM km cm :
  best_corr (chroma_profile lib self) (normalized major_profile) = Ok (kM, cM) ->
  best_corr (chroma_profile lib self) (normalized minor_profile) = Ok (km, cm) ->
  cM = cm ->
  key_and_mode lib self = Ok (kM, 1%Z, 0).
Proof.
  intros HM Hm Heq. unfold key_and_mode. rewrite HM. cbn [Py.bind].
  rewrite Hm. cbn [Py.bind]. unfold pick_mode. simpl.
  replace (Rleb cm cM) with true by (symmetry; apply Rleb_true; lra).
  do 2 f_equal. lra.
Qed.


End Exact.

Lemma key_and_mode_tie_is_major_witness :
  key_and_mode silence_librosa silence = Ok (0%nat, 1%Z, 0).
Proof.
  apply (key_and_mode_tie_is_major silence_librosa silence 0 0 0 0).
  - apply exact_best_corr_zero; [apply silence_chroma_zero | reflexivity].
  - apply exact_best_corr_zero; [apply silence_chroma_zero | reflexivity].
  - reflexivity.
Defined.

Lemma harmonic_ratio_silence_exact :
  harmonic_percussive_ratio (N:=exact_num) silence_librosa silence = 0.
Proof.
  unfold harmonic_percussive_ratio.
  change (effects_hpss silence_librosa (self_y silence))
    with (repeat (0:R) 4, repeat (0:R) 4).
  cbv iota beta.
  change (np_square (repeat (0:R) 4)) with [0 * 0; 0 * 0; 0 * 0; 0 * 0].
  replace [0 * 0; 0 * 0; 0 * 0; 0 * 0] with (repeat (0:R) 4)
    by (simpl; repeat f_equal; lra).
  rewrite exact_np_mean_zeros. simpl. unfold Rdiv. apply Rmult_0_l.
Qed.

End ExactFacts.

(** ** The descriptor methods in binary64 *)

Module B64Facts.

Import SpotifyFeaturesDSP Samples PyFacts DescriptorFacts.

Lemma has_sign_nonneg (x : B64.float) : B64.has_sign false x -> B64.leb B64.zero x = true.
Proof. destruct x as [s|s| |s m e]; simpl; intros H; try contradiction; subst; reflexivity. Qed.

Lemma shr_1_nonneg (mrs : shr_record) : 0 <= shr_m mrs -> 0 <= shr_m (shr_1 mrs).
Proof.
  destruct mrs as [m r s]. simpl. intros H.
  destruct m as [|p|p]; simpl; try lia; destruct p; simpl; lia.
Qed.

Lemma iter_shr_1_nonneg (p : positive) (mrs : shr_record) :
  0 <= shr_m mrs -> 0 <= shr_m (SpecFloat.iter_pos shr_1 p mrs).
Proof.
  revert mrs. induction p as [p IH|p IH|]; intros mrs H; simpl.
  - apply IH, IH, shr_1_nonneg, H.
  - apply IH, IH, H.
  - apply shr_1_nonneg, H.
Qed.

Lemma shr_fexp_nonneg (m e : Z) (l : location) :
  0 <= m -> 0 <= shr_m (fst (shr_fexp B64.prec B64.emax m e l)).
Proof.
  intros H. unfold shr_fexp, shr.
  assert (H0 : 0 <= shr_m (shr_record_of_loc m l)).
  { destruct l as [|[]]; simpl; exact H. }
  destruct (fexp B64.prec B64.emax (Zdigits2 m + e) - e) as [|p|p]; simpl;
    try exact H0.
  apply iter_shr_1_nonneg, H0.
Qed.

Lemma round_nearest_even_nonneg (m : Z) (l : location) :
  0 <= m -> 0 <= round_nearest_even m l.
Proof.
  intros H. destruct l as [|[]]; simpl; try lia.
  destruct (Z.even m); lia.
Qed.

(** Rounding a non-negative mantissa gives a zero, a finite number or an
    infinity of the requested sign, never a NaN. *)
Lemma binary_round_aux_sign (sx : bool) (mx ex : Z) (lx : location) :
  0 <= mx -> B64.has_sign sx (binary_round_aux B64.prec B64.emax sx mx ex lx).
Proof.
  intros H. unfold binary_round_aux.
  pose proof (shr_fexp_nonneg mx ex lx H) as H1.
  destruct (shr_fexp B64.prec B64.emax mx ex lx) as [mrs' e'].
  simpl in H1.
  pose proof (shr_fexp_nonneg _ e' loc_Exact
                (round_nearest_even_nonneg _ (loc_of_shr_record mrs') H1)) as H2.
  destruct (shr_fexp B64.prec B64.emax
              (round_nearest_even (shr_m mrs') (loc_of_shr_record mrs')) e' loc_Exact)
    as [mrs'' e''].
  simpl in H2. destruct (shr_m mrs'') as [|p|p]; simpl.
  - reflexivity.
  - destruct (e'' <=? B64.emax - B64.prec); reflexivity.
  - lia.
Qed.

Lemma binary_normalize_sign (m e : Z) :
  B64.has_sign (m <? 0) (binary_normalize B64.prec B64.emax m e false).
Proof.
  destruct m as [|p|p]; simpl; try reflexivity.
  - unfold binary_round. destruct (shl_align _ _ _) as [mz ez].
    apply binary_round_aux_sign. lia.
  - unfold binary_round. destruct (shl_align _ _ _) as [mz ez].
    apply binary_round_aux_sign. lia.
Qed.

Lemma SFcompare_swap (x y : B64.float) :
  SFcompare x y = option_map CompOpp (SFcompare y x).
Proof.
  destruct x as [sx|sx| |sx mx ex], y as [sy|sy| |sy my ey]; simpl;
    try reflexivity;
    try (destruct sx; reflexivity); try (destruct sy; reflexivity);
    try (destruct sx, sy; reflexivity).
  destruct sx, sy; simpl; try reflexivity.
  - rewrite (Z.compare_antisym ey ex). destruct (ey ?= ex); simpl; try reflexivity.
    rewrite (ZC4 mx my). destruct (Pos.compare_cont Eq my mx); reflexivity.
  - rewrite (Z.compare_antisym ey ex). destruct (ey ?= ex); simpl; try reflexivity.
    rewrite (ZC4 mx my). destruct (Pos.compare_cont Eq my mx); reflexivity.
Qed.

Lemma pos_iter_xO (m d : positive) :
  Zpos (Pos.iter xO m d) = Zpos m * 2 ^ Zpos d.
Proof.
  induction d as [|d IH] using Pos.peano_ind.
  - simpl. lia.
  - rewrite Pos.iter_succ. rewrite Pos2Z.inj_xO, IH.
    rewrite Pos2Z.inj_succ, Z.pow_succ_r by lia. lia.
Qed.

Lemma shl_align_fst (mx : positive) (ex ez : Z) :
  ez <= ex -> Zpos (fst (shl_align mx ex ez)) = Zpos mx * 2 ^ (ex - ez).
Proof.
  intros H. unfold shl_align.
  destruct (ez - ex) as [|p|p] eqn:E; simpl.
  - replace (ex - ez) with 0 by lia. lia.
  - lia.
  - rewrite pos_iter_xO. replace (ex - ez) with (Zpos p) by lia. reflexivity.
Qed.

Lemma digits2_pos_bounds (m : positive) :
  2 ^ (Zpos (digits2_pos m) - 1) <= Zpos m < 2 ^ Zpos (digits2_pos m).
Proof.
  induction m as [m IH|m IH|]; simpl digits2_pos.
  - rewrite Pos2Z.inj_succ.
    replace (Z.succ (Zpos (digits2_pos m)) - 1) with (Z.succ (Zpos (digits2_pos m) - 1)) by lia.
    rewrite !Z.pow_succ_r by lia. lia.
  - rewrite Pos2Z.inj_succ.
    replace (Z.succ (Zpos (digits2_pos m)) - 1) with (Z.succ (Zpos (digits2_pos m) - 1)) by lia.
    rewrite !Z.pow_succ_r by lia. lia.
  - simpl. lia.
Qed.

(** A canonical mantissa is below 2^53, and at least 2^52 unless the
    exponent is the least one. *)
Lemma valid_mantissa (s : bool) (m : positive) (e : Z) :
  B64.valid (S754_finite s m e) = true ->
  Zpos m < 2 ^ 53 /\ -1074 <= e /\ (-1074 < e -> 2 ^ 52 <= Zpos m).
Proof.
  unfold B64.valid, valid_binary, bounded, canonical_mantissa, fexp, emin.
  unfold B64.prec, B64.emax. intros H.
  apply andb_true_iff in H. destruct H as [H _]. apply Z.eqb_eq in H.
  pose proof (digits2_pos_bounds m) as [Hlo Hhi].
  assert (Hd : Zpos (digits2_pos m) <= 53) by lia.
  split; [|split].
  - eapply Z.lt_le_trans; [exact Hhi|]. apply Z.pow_le_mono_r; lia.
  - lia.
  - intros He. assert (Zpos (digits2_pos m) = 53) by lia.
    rewrite H0 in Hlo. exact Hlo.
Qed.

Lemma leb_inv (y x : B64.float) :
  B64.leb y x = true -> SFcompare y x = Some Lt \/ SFcompare y x = Some Eq.
Proof.
  unfold B64.leb, SFleb. destruct (SFcompare y x) as [[| |]|]; intros H;
    try discriminate; auto.
Qed.

(** For representable finite numbers, [y <= x] gives [x - y >= 0]: the
    difference is rounded from a non-negative exact value. *)
Lemma sub_nonneg (x y : B64.float) :
  B64.is_finite x = true -> B64.is_finite y = true ->
  B64.valid x = true -> B64.valid y = true ->
  B64.leb y x = true ->
  B64.leb B64.zero (B64.sub x y) = true.
Proof.
  intros Hfx Hfy Hvx Hvy Hle.
  destruct x as [sx|sx| |sx mx ex]; try discriminate;
    destruct y as [sy|sy| |sy my ey]; try discriminate.
  - destruct sx, sy; reflexivity.
  - destruct sy; [reflexivity | discriminate].
  - destruct sx; [discriminate | reflexivity].
  - apply has_sign_nonneg. unfold B64.sub, SFsub.
    pose proof (valid_mantissa _ _ _ Hvx) as [Hxhi [Hxe Hxlo]].
    pose proof (valid_mantissa _ _ _ Hvy) as [Hyhi [Hye Hylo]].
    pose proof (shl_align_fst mx ex (Z.min ex ey) (Z.le_min_l _ _)) as Hax.
    pose proof (shl_align_fst my ey (Z.min ex ey) (Z.le_min_r _ _)) as Hay.
    set (ax := fst (shl_align mx ex (Z.min ex ey))) in *.
    set (ay := fst (shl_align my ey (Z.min ex ey))) in *.
    assert (HD : 0 <= cond_Zopp sx (Zpos ax) - cond_Zopp sy (Zpos ay)).
    { apply leb_inv in Hle.
      destruct sx, sy; simpl in Hle |- *.
      - (* both negative *)
        destruct (ey ?= ex) eqn:E.
        + apply Z.compare_eq in E. subst ey.
          rewrite Z.min_id, Z.sub_diag in *. simpl in Hax, Hay.
          change (Pos.compare_cont Eq my mx) with (my ?= mx)%positive in Hle.
          destruct (Pos.compare_spec my mx) as [Hc|Hc|Hc]; simpl in Hle;
            [subst; lia | destruct Hle as [H|H]; discriminate | lia].
        + destruct Hle as [H|H]; discriminate.
        + assert (Hgt : ex < ey) by (apply Z.compare_gt_iff; exact E).
          rewrite Z.min_l in * by lia. rewrite Z.sub_diag in Hax. simpl in Hax.
          assert (2 ^ 1 <= 2 ^ (ey - ex)) by (apply Z.pow_le_mono_r; lia).
          assert (2 ^ 52 <= Zpos my) by (apply Hylo; lia).
          nia.
      - destruct Hle as [H|H]; discriminate.
      - lia.
      - destruct (ey ?= ex) eqn:E.
        + apply Z.compare_eq in E. subst ey.
          rewrite Z.min_id, Z.sub_diag in *. simpl in Hax, Hay.
          change (Pos.compare_cont Eq my mx) with (my ?= mx)%positive in Hle.
          destruct (Pos.compare_spec my mx) as [Hc|Hc|Hc];
            [subst; lia | lia | destruct Hle as [H|H]; discriminate].
        + assert (Hlt : ey < ex) by exact E.
          rewrite Z.min_r in * by lia. rewrite Z.sub_diag in Hay. simpl in Hay.
          assert (2 ^ 1 <= 2 ^ (ex - ey)) by (apply Z.pow_le_mono_r; lia).
          assert (2 ^ 52 <= Zpos mx) by (apply Hxlo; lia).
          nia.
        + destruct Hle as [H|H]; discriminate. }
    pose proof (binary_normalize_sign
                  (cond_Zopp sx (Zpos ax) - cond_Zopp sy (Zpos ay))
                  (Z.min ex ey)) as Hs.
    replace (cond_Zopp sx (Zpos ax) - cond_Zopp sy (Zpos ay) <? 0) with false in Hs
      by (symmetry; apply Z.ltb_ge; exact HD).
    exact Hs.
Qed.

(** Equal finite numbers have the difference zero. *)
Lemma sub_eq_zero (x y : B64.float) :
  B64.is_finite x = true -> B64.is_finite y = true ->
  B64.eqb x y = true ->
  B64.leb y x = true /\ B64.eqb (B64.sub x y) B64.zero = true.
Proof.
  intros Hfx Hfy Heq.
  destruct x as [sx|sx| |sx mx ex]; try discriminate;
    destruct y as [sy|sy| |sy my ey]; try discriminate.
  - destruct sx, sy; split; reflexivity.
  - destruct sy; discriminate.
  - destruct sx; discriminate.
  - unfold B64.eqb, SFeqb in Heq. simpl in Heq.
    assert (H : sx = sy /\ ex = ey /\ mx = my).
    { destruct sx, sy; try discriminate;
        destruct (ex ?= ey) eqn:E; try discriminate;
        apply Z.compare_eq in E;
        destruct (Pos.compare_cont Eq mx my) eqn:E2; try discriminate;
        apply Pos.compare_eq in E2; auto. }
    destruct H as [-> [-> ->]]. split.
    + unfold B64.leb, SFleb. simpl. rewrite Z.compare_refl.
      rewrite Pos.compare_cont_refl. destruct sy; reflexivity.
    + unfold B64.sub, SFsub. rewrite Z.sub_diag. reflexivity.
Qed.

Lemma leb_total (x y : B64.float) :
  B64.is_nan x = false -> B64.is_nan y = false ->
  B64.leb y x = false -> B64.leb x y = true.
Proof.
  intros Hx Hy. unfold B64.leb, SFleb. rewrite (SFcompare_swap x y).
  destruct (SFcompare y x) as [[| |]|] eqn:E; simpl; try discriminate; try reflexivity.
  destruct x, y; try discriminate; simpl in E; try discriminate;
    repeat match goal with s : bool |- _ => destruct s end; discriminate.
Qed.

Lemma finite_not_nan (x : B64.float) : B64.is_finite x = true -> B64.is_nan x = false.
Proof. destruct x; try discriminate; reflexivity. Qed.

Section B64.
Variable lib : Librosa B64.float.

(** In binary64 [key_and_mode] returns with a key below 12 and mode 0 or 1.
    When the two best correlations are finite representable doubles the
    confidence is the winner's correlation minus the loser's and is at
    least 0; when they are equal the result is major with confidence 0. *)
Theorem key_and_mode_b64 (self : AudioFeatureExtractor B64.float) :
  exists key mode conf kM cM km cm,
    best_corr (chroma_profile lib self) (normalized major_profile) = Ok (kM, cM) /\
    best_corr (chroma_profile lib self) (normalized minor_profile) = Ok (km, cm) /\
    key_and_mode lib self = Ok (key, mode, conf) /\
    (key < 12)%nat /\ (mode = 0 \/ mode = 1) /\
    (B64.is_finite cM = true -> B64.is_finite cm = true ->
     B64.valid cM = true -> B64.valid cm = true ->
     B64.leb B64.zero conf = true /\
     ((mode = 1 /\ key = kM /\ B64.leb cm cM = true /\ conf = B64.sub cM cm) \/
      (mode = 0 /\ key = km /\ B64.leb cm cM = false /\ conf = B64.sub cm cM))) /\
    (B64.is_finite cM = true -> B64.is_finite cm = true ->
     B64.eqb cM cm = true ->
     mode = 1 /\ key = kM /\ B64.eqb conf B64.zero = true).
Proof.
  destruct (key_and_mode_returns lib self) as [kM [cM [km [cm [HM [Hm [HkM [Hkm Hk]]]]]]]].
  unfold pick_mode in Hk. simpl in Hk.
  destruct (B64.leb cm cM) eqn:Hle.
  - exists kM, 1, (B64.sub cM cm), kM, cM, km, cm.
    repeat split; auto.
    + apply sub_nonneg; assumption.
    + apply sub_eq_zero; assumption.
  - exists km, 0, (B64.sub cm cM), kM, cM, km, cm.
    repeat split; auto.
    + apply sub_nonneg; try assumption.
      apply leb_total; try assumption; apply finite_not_nan; assumption.
    + destruct (sub_eq_zero cM cm H H0 H1) as [Hc _]. congruence.
    + destruct (sub_eq_zero cM cm H H0 H1) as [Hc _]. congruence.
    + destruct (sub_eq_zero cM cm H H0 H1) as [Hc _]. congruence.
Qed.
End B64.

(** C7, as stated, fails: on silence both parts are silent, eh = 0, and the
    value is 0 / 1e-12 = 0, in binary64 as in exact arithmetic; 0 is not
    inside the open interval. *)
Lemma harmonic_ratio_zero_on_silence :
  harmonic_percussive_ratio (N:=b64_num) silence_librosa silence = B64.zero /\
  harmonic_percussive_ratio (N:=exact_num) silence_librosa silence = 0%R.
Proof.
  split.
  - vm_compute. reflexivity.
  - apply ExactFacts.harmonic_ratio_silence_exact.
Qed.

(** C9, as stated, fails in binary64: for three samples of 0.3 the mean of
    the squares rounds up, the guarded root mean square is one unit in the
    last place above the guarded peak 0.3, the quotient passed to
    [np.log10] is 1 - 2^-52, below 1, and the value returned is 20 times
    its logarithm, a negative number. *)
Lemma crest_rms_exceeds_peak :
  guarded_peak (N:=b64_num) dc03 = Ok (S754_finite false 5404319552844595 (-54)) /\
  guarded_rms (N:=b64_num) dc03 = S754_finite false 5404319552844596 (-54) /\
  B64.ltb (S754_finite false 5404319552844595 (-54))
          (S754_finite false 5404319552844596 (-54)) = true /\
  B64.div (S754_finite false 5404319552844595 (-54))
          (S754_finite false 5404319552844596 (-54))
    = S754_finite false 9007199254740990 (-53) /\
  B64.ltb (S754_finite false 9007199254740990 (-53)) B64.one = true /\
  forall np_log10 : B64.float -> B64.float,
    crest_factor_db (N:=b64_num) np_log10 dc03 =
    Ok (B64.mul (B64.of_dec 20 0)
                (np_log10 (S754_finite false 9007199254740990 (-53)))).
Proof.
  assert (Hp : guarded_peak (N:=b64_num) dc03
               = Ok (S754_finite false 5404319552844595 (-54)))
    by (vm_compute; reflexivity).
  assert (Hr : guarded_rms (N:=b64_num) dc03
               = S754_finite false 5404319552844596 (-54))
    by (vm_compute; reflexivity).
  split; [exact Hp|]. split; [exact Hr|].
  do 3 (split; [vm_compute; reflexivity|]).
  intros L. unfold crest_factor_db. rewrite Hp, Hr. reflexivity.
Qed.

(** On silence both guards are 1e-12 and the quotient is exactly 1.0. *)
Lemma crest_factor_silence_b64 (np_log10 : B64.float -> B64.float) :
  crest_factor_db (N:=b64_num) np_log10 silence =
  Ok (B64.mul (B64.of_dec 20 0) (np_log10 B64.one)).
Proof.
  assert (Hp : guarded_peak (N:=b64_num) silence = Ok (B64.of_dec 1 (-12)))
    by (vm_compute; reflexivity).
  assert (Hr : guarded_rms (N:=b64_num) silence = B64.of_dec 1 (-12))
    by (vm_compute; reflexivity).
  unfold crest_factor_db. rewrite Hp, Hr. reflexivity.
Qed.

(** In binary64 the guard 1e-12 is absorbed by a large harmonic energy: a
    harmonic part of amplitude 1000 with a silent percussive part gives
    exactly 1.0. *)
Example harmonic_ratio_one_b64 :
  harmonic_percussive_ratio (N:=b64_num) pulse_librosa
    {| self_y := [B64.of_Z 1000; B64.of_Z (-1000)]; self_sr := 22050 |}
  = B64.one.
Proof. vm_compute. reflexivity. Qed.

End B64Facts.

(** ** The feature maps and the training run, continued *)

Module FeatureMapFacts.

Import TrainKMeans Samples PyFacts TrainKMeansFacts Provenance.

Lemma foldM_invariant {A S : Type} (P : S -> Prop) (f : S -> A -> result S) (l : list A) :
  (forall s a s', P s -> f s a = Ok s' -> P s') ->
  forall s s', P s -> foldM f s l = Ok s' -> P s'.
Proof.
  intros Hf. induction l as [|a t IH]; intros s s' Hs H; simpl in H.
  - inversion H. subst. exact Hs.
  - destruct (f s a) as [s1|e] eqn:E; simpl in H; [|discriminate].
    apply (IH s1 s'); [|exact H]. apply (Hf s a s1 Hs E).
Qed.

(** The attribute loop adds the value key and the flag key of each name
    it visits, and nothing else. *)
Lemma sp_features_fold rt d (ks : list string) (out0 : gmap string B64.float) :
  exists out, foldM (add_attribute rt (JDict d)) out0 ks = Ok out /\
    forall key, is_Some (out !! key) <->
      is_Some (out0 !! key) \/ In key (map sp_key ks) \/ In key (map sp_has_key ks).
Proof.
  revert out0. induction ks as [|k ks IH]; intros out0.
  - exists out0. split; [reflexivity|]. simpl. tauto.
  - cbn [foldM]. rewrite add_attribute_spec. cbn [Py.bind].
    destruct (IH (<[sp_has_key k :=
                      match py_float rt (dict_get d k) with
                      | Ok _ => B64.one | Raise _ => B64.zero end]>
                   (<[sp_key k :=
                        match py_float rt (dict_get d k) with
                        | Ok f => f | Raise _ => B64.zero end]> out0)))
      as [out [Ho Hk]].
    exists out. split; [exact Ho|]. intros key. rewrite Hk.
    rewrite !lookup_insert_is_Some. simpl.
    destruct (decide (sp_has_key k = key)); destruct (decide (sp_key k = key));
      subst; tauto.
Qed.

Lemma sp_features_domain rt d :
  exists out, extract_spotify_features rt (JDict d) = Ok out /\
    (forall key, is_Some (out !! key) <->
       In key (map sp_key sp_names ++ map sp_has_key sp_names)) /\
    size out = 12%nat.
Proof.
  destruct (sp_features_fold rt d sp_names ∅) as [out [Ho Hk]].
  exists out. split; [exact Ho|].
  assert (Hdom : forall key, is_Some (out !! key) <->
                   In key (map sp_key sp_names ++ map sp_has_key sp_names)).
  { intros key. rewrite Hk. rewrite lookup_empty. rewrite in_app_iff. split.
    - intros [H|H]; [destruct H; discriminate|exact H].
    - intros H. right. exact H. }
  split; [exact Hdom|].
  assert (Hd : dom out = list_to_set (map sp_key sp_names ++ map sp_has_key sp_names)).
  { apply set_eq. intros key. rewrite elem_of_dom, Hdom, elem_of_list_to_set.
    rewrite list_elem_of_In. reflexivity. }
  rewrite <- size_dom, Hd.
  rewrite size_list_to_set; [reflexivity|].
  unfold sp_names. simpl.
  repeat (constructor; [rewrite ?list_elem_of_In; simpl; intuition discriminate|]).
  constructor.
Qed.

(** The attribute builder has a fixed schema: on a track record it
    returns a map with exactly the twelve keys [sp__<name>] and
    [sp__has_<name>] of the six names, whatever the record holds; on a
    track that is not a record it raises [AttributeError]. *)
Theorem extract_spotify_features_schema rt track :
  match track with
  | JDict d =>
      exists out, extract_spotify_features rt track = Ok out /\
        (forall key, is_Some (out !! key) <->
           In key (map sp_key sp_names ++ map sp_has_key sp_names)) /\
        size out = 12%nat
  | _ => extract_spotify_features rt track = Raise AttributeError
  end.
Proof.
  destruct track as [| | | | | |d]; try reflexivity.
  destruct (sp_features_domain rt d) as [out [Ho [Hdom Hsize]]].
  exists out. split; [exact Ho|]. split; [exact Hdom|exact Hsize].
Qed.

Lemma ab_prefixed_insert (out : gmap string B64.float) clf cls v :
  (forall key, is_Some (out !! key) -> exists rest, key = "ab__" +:+ rest) ->
  forall key, is_Some (<[ab_key clf cls := v]> out !! key) ->
    exists rest, key = "ab__" +:+ rest.
Proof.
  intros H key. rewrite lookup_insert_is_Some. intros [<-|[_ Hk]].
  - eexists. reflexivity.
  - apply H, Hk.
Qed.

Lemma add_prob_prefixed rt clf (out : gmap string B64.float) item out' :
  (forall key, is_Some (out !! key) -> exists rest, key = "ab__" +:+ rest) ->
  add_prob rt clf out item = Ok out' ->
  forall key, is_Some (out' !! key) -> exists rest, key = "ab__" +:+ rest.
Proof.
  destruct item as [cls p]. unfold add_prob. rewrite safe_num_spec. simpl.
  intros H. destruct (py_float rt p); intros E; inversion E; subst.
  - apply ab_prefixed_insert, H.
  - exact H.
Qed.

Lemma add_classifier_prefixed rt (out : gmap string B64.float) item out' :
  (forall key, is_Some (out !! key) -> exists rest, key = "ab__" +:+ rest) ->
  add_classifier rt out item = Ok out' ->
  forall key, is_Some (out' !! key) -> exists rest, key = "ab__" +:+ rest.
Proof.
  destruct item as [clf obj]. unfold add_classifier. intros H.
  destruct obj as [| | | | | |d]; simpl; try (intros E; inversion E; subst; exact H).
  set (probs := if truthy (dict_get d "all") then Ok (dict_get d "all")
                else Ok (dict_get d "probabilities")).
  assert (Hp : exists p, probs = Ok p)
    by (unfold probs; destruct (truthy _); eexists; reflexivity).
  destruct Hp as [p Hp]. rewrite Hp. simpl.
  destruct (is_dict p).
  - apply (foldM_invariant
             (fun o : gmap string B64.float =>
                forall key, is_Some (o !! key) -> exists rest, key = "ab__" +:+ rest));
      [|exact H]. intros s a s'. apply add_prob_prefixed.
  - rewrite safe_num_spec. simpl.
    destruct (py_float rt (dict_get d "probability")); simpl.
    + destruct (is_None (dict_get d "value")); simpl; intros E; inversion E; subst.
      * exact H.
      * apply ab_prefixed_insert, H.
    + intros E; inversion E; subst; exact H.
Qed.

(** Every key the classifier builder emits begins with ["ab__"]. *)
Lemma extract_ab_features_prefixed rt track (out : gmap string B64.float) :
  extract_ab_features rt track = Ok out ->
  forall key, is_Some (out !! key) -> exists rest, key = "ab__" +:+ rest.
Proof.
  unfold extract_ab_features. intros H.
  apply bind_ok in H. destruct H as [ab [_ H]].
  destruct (is_dict ab); simpl in H.
  - apply bind_ok in H. destruct H as [h [_ H]].
    apply bind_ok in H. destruct H as [o [Ho H]].
    inversion H. subst. intros key. rewrite lookup_insert_is_Some.
    intros [<-|[_ Hk]]; [exists "has_acousticbrainz"; reflexivity|].
    revert key Hk.
    apply (foldM_invariant
             (fun o : gmap string B64.float =>
                forall key, is_Some (o !! key) -> exists rest, key = "ab__" +:+ rest)
             (add_classifier rt) (items (if is_dict h then h else ab)))
      with (s := ∅); [| |exact Ho].
    + intros s a s'. apply add_classifier_prefixed.
    + intros key Hk. rewrite lookup_empty in Hk. destruct Hk; discriminate.
  - inversion H. subst. intros key Hk. rewrite lookup_empty in Hk.
    destruct Hk; discriminate.
Qed.

Lemma sp_keys_not_ab key :
  In key (map sp_key sp_names ++ map sp_has_key sp_names) ->
  ~ exists rest, key = "ab__" +:+ rest.
Proof.
  simpl. intros H [rest Hr].
  repeat (destruct H as [<-|H]; [discriminate|]). contradiction.
Qed.

(** The merge of [featurize_track] loses nothing: when it returns, both
    builders returned, every entry of either map is in the result
    unchanged (a classifier feature never overwrites an attribute feature),
    the result holds no other key, and it has twelve entries more than the
    classifier map.  When it raises, the exception is that of the
    attribute builder, or that of the classifier builder after the
    attribute builder returned. *)
Theorem featurize_track_merge rt track :
  match featurize_track rt track with
  | Ok f =>
      exists sp ab,
        extract_spotify_features rt track = Ok sp /\
        extract_ab_features rt track = Ok ab /\
        (forall key v, sp !! key = Some v -> f !! key = Some v) /\
        (forall key v, ab !! key = Some v -> f !! key = Some v) /\
        (forall key, is_Some (f !! key) -> is_Some (sp !! key) \/ is_Some (ab !! key)) /\
        size f = (12 + size ab)%nat
  | Raise e =>
      extract_spotify_features rt track = Raise e \/
      ((exists sp, extract_spotify_features rt track = Ok sp) /\
       extract_ab_features rt track = Raise e)
  end.
Proof.
  unfold featurize_track.
  destruct (extract_spotify_features rt track) as [sp|e] eqn:Hsp; cbn [Py.bind];
    [|left; reflexivity].
  destruct (extract_ab_features rt track) as [ab|e] eqn:Hab; cbn [Py.bind];
    [|right; split; [eexists|]; reflexivity].
  exists sp, ab. split; [reflexivity|]. split; [reflexivity|].
  pose proof (extract_ab_features_prefixed rt track ab Hab) as Hpre.
  destruct track as [| | | | | |d]; try discriminate.
  destruct (sp_features_domain rt d) as [sp' [Hsp' [Hdom Hsize]]].
  rewrite Hsp in Hsp'. inversion Hsp'. subst sp'. clear Hsp'.
  assert (Hdisj : ab ##ₘ sp).
  { apply map_disjoint_spec. intros key x y Hx Hy.
    apply (sp_keys_not_ab key).
    - apply Hdom. eexists. exact Hy.
    - apply Hpre. eexists. exact Hx. }
  unfold dict_update. rewrite (right_id_L ∅ (∪)).
  split; [|split; [|split]].
  - intros key v Hv. apply lookup_union_Some; [exact Hdisj|]. right. exact Hv.
  - intros key v Hv. apply lookup_union_Some; [exact Hdisj|]. left. exact Hv.
  - intros key [v Hv]. apply lookup_union_Some in Hv; [|exact Hdisj].
    destruct Hv as [Hv|Hv]; [right|left]; eexists; exact Hv.
  - rewrite map_size_disj_union by exact Hdisj. rewrite Hsize. lia.
Qed.

(** The loop over a probability table: what it adds to the map. *)
Lemma fold_add_prob rt clf (its : list (string * json)) :
  forall o0 : gmap string B64.float,
  exists o, foldM (add_prob rt clf) o0 its = Ok o /\
    (forall key v, o !! key = Some v ->
       o0 !! key = Some v \/
       exists cls p, In (cls, p) its /\ key = ab_key clf cls /\ py_float rt p = Ok v) /\
    (forall key, is_Some (o0 !! key) -> is_Some (o !! key)) /\
    (forall cls p v, In (cls, p) its -> py_float rt p = Ok v ->
       is_Some (o !! ab_key clf cls)).
Proof.
  induction its as [|[cls p] its IH]; intros o0.
  - exists o0. split; [reflexivity|]. split; [auto|]. split; [auto|].
    intros cls p v [].
  - cbn [foldM]. unfold add_prob at 1. rewrite safe_num_spec. cbn [Py.bind].
    destruct (py_float rt p) as [f|e] eqn:Hp.
    + destruct (IH (<[ab_key clf cls := f]> o0)) as [o [Ho [Hs [Hm Hc]]]].
      exists o. split; [exact Ho|]. split; [|split].
      * intros key v Hv. destruct (Hs key v Hv) as [H|[cls' [p' [Hin [Hk Hf]]]]].
        -- apply lookup_insert_Some in H. destruct H as [[<- <-]|[_ H]].
           ++ right. exists cls, p. split; [left; reflexivity|]. auto.
           ++ left. exact H.
        -- right. exists cls', p'. split; [right; exact Hin|]. auto.
      * intros key Hk. apply Hm. rewrite lookup_insert_is_Some.
        destruct (decide (ab_key clf cls = key)); [left; assumption|right; auto].
      * intros cls' p' v [Heq|Hin] Hf.
        -- inversion Heq. subst. apply Hm. rewrite lookup_insert_is_Some.
           left. reflexivity.
        -- apply (Hc cls' p' v Hin Hf).
    + destruct (IH o0) as [o [Ho [Hs [Hm Hc]]]].
      exists o. split; [exact Ho|]. split; [|split].
      * intros key v Hv. destruct (Hs key v Hv) as [H|[cls' [p' [Hin [Hk Hf]]]]].
        -- left. exact H.
        -- right. exists cls', p'. split; [right; exact Hin|]. auto.
      * exact Hm.
      * intros cls' p' v [Heq|Hin] Hf.
        -- inversion Heq. subst. congruence.
        -- apply (Hc cls' p' v Hin Hf).
Qed.

(** One pass of the classifier loop: what it adds to the map. *)
Lemma add_classifier_entries rt (o0 : gmap string B64.float) clf obj :
  exists o, add_classifier rt o0 (clf, obj) = Ok o /\
    (forall key v, o !! key = Some v ->
       o0 !! key = Some v \/ probability_source rt [(clf, obj)] key v) /\
    (forall key, is_Some (o0 !! key) -> is_Some (o !! key)) /\
    (forall key v, probability_source rt [(clf, obj)] key v -> is_Some (o !! key)).
Proof.
  unfold add_classifier.
  destruct obj as [| | | | | |d]; cbn [is_dict negb];
    try (exists o0; split; [reflexivity|]; split; [auto|]; split; [auto|];
         intros key v [clf' [obj' [[Heq|[]] _]]]; discriminate).
  cbn [py_get Py.bind].
  assert (Hsrc : forall key v, probability_source rt [(clf, JDict d)] key v <->
            let table := if truthy (dict_get d "all") then dict_get d "all"
                         else dict_get d "probabilities" in
            if is_dict table
            then exists cls p, In (cls, p) (items table) /\
                   key = ab_key clf cls /\ py_float rt p = Ok v
            else is_None (dict_get d "value") = false /\
                 key = ab_key clf (format_value rt (dict_get d "value")) /\
                 py_float rt (dict_get d "probability") = Ok v).
  { intros key v. split.
    - intros [clf' [obj' [[Heq|[]] H]]]. inversion Heq. subst. exact H.
    - intros H. exists clf, d. split; [left; reflexivity|exact H]. }
  set (table := if truthy (dict_get d "all") then dict_get d "all"
                else dict_get d "probabilities") in *.
  replace (if truthy (dict_get d "all") then Ok (dict_get d "all")
           else Ok (dict_get d "probabilities")) with (Ok (A:=json) table)
    by (unfold table; destruct (truthy (dict_get d "all")); reflexivity).
  cbn [Py.bind]. cbv zeta in Hsrc.
  destruct (is_dict table) eqn:Ht.
  - destruct (fold_add_prob rt clf (items table) o0) as [o [Ho [Hs [Hm Hc]]]].
    exists o. split; [exact Ho|]. split; [|split].
    + intros key v Hv. destruct (Hs key v Hv) as [H|H]; [left; exact H|].
      right. apply Hsrc. exact H.
    + exact Hm.
    + intros key v H. apply Hsrc in H. destruct H as [cls [p [Hin [-> Hf]]]].
      apply (Hc cls p v Hin Hf).
  - rewrite safe_num_spec. cbn [Py.bind].
    destruct (py_float rt (dict_get d "probability")) as [f|e] eqn:Hp.
    + destruct (is_None (dict_get d "value")) eqn:Hn; cbn [negb].
      * exists o0. split; [reflexivity|]. split; [auto|]. split; [auto|].
        intros key v H. apply Hsrc in H. destruct H as [H _]. discriminate.
      * eexists. split; [reflexivity|]. split; [|split].
        -- intros key v Hv. apply lookup_insert_Some in Hv.
           destruct Hv as [[<- <-]|[_ H]]; [right|left; exact H].
           apply Hsrc. auto.
        -- intros key Hk. rewrite lookup_insert_is_Some.
           destruct (decide (ab_key clf (format_value rt (dict_get d "value")) = key));
             [left; assumption|right; auto].
        -- intros key v H. apply Hsrc in H. destruct H as [_ [-> _]].
           rewrite lookup_insert_is_Some. left. reflexivity.
    + exists o0. split; [reflexivity|]. split; [auto|]. split; [auto|].
      intros key v H. apply Hsrc in H. destruct H as [_ [_ H]]. discriminate.
Qed.

Lemma probability_source_cons rt clf obj its key v :
  probability_source rt ((clf, obj) :: its) key v <->
  probability_source rt [(clf, obj)] key v \/ probability_source rt its key v.
Proof.
  unfold probability_source. split.
  - intros [c [o [[Heq|Hin] H]]].
    + left. exists c, o. split; [left; exact Heq|exact H].
    + right. exists c, o. split; [exact Hin|exact H].
  - intros [[c [o [[Heq|[]] H]]]|[c [o [Hin H]]]].
    + exists c, o. split; [left; exact Heq|exact H].
    + exists c, o. split; [right; exact Hin|exact H].
Qed.

Lemma fold_add_classifier rt (its : list (string * json)) :
  forall o0 : gmap string B64.float,
  exists o, foldM (add_classifier rt) o0 its = Ok o /\
    (forall key v, o !! key = Some v ->
       o0 !! key = Some v \/ probability_source rt its key v) /\
    (forall key, is_Some (o0 !! key) -> is_Some (o !! key)) /\
    (forall key v, probability_source rt its key v -> is_Some (o !! key)).
Proof.
  induction its as [|[clf obj] its IH]; intros o0.
  - exists o0. split; [reflexivity|]. split; [auto|]. split; [auto|].
    intros key v [c [o [[] _]]].
  - cbn [foldM].
    destruct (add_classifier_entries rt o0 clf obj) as [o1 [H1 [Hs1 [Hm1 Hc1]]]].
    rewrite H1. cbn [Py.bind].
    destruct (IH o1) as [o [Ho [Hs [Hm Hc]]]].
    exists o. split; [exact Ho|]. split; [|split].
    + intros key v Hv. destruct (Hs key v Hv) as [H|H].
      * destruct (Hs1 key v H) as [H'|H']; [left; exact H'|].
        right. apply probability_source_cons. left. exact H'.
      * right. apply probability_source_cons. right. exact H.
    + intros key Hk. apply Hm, Hm1, Hk.
    + intros key v H. apply probability_source_cons in H. destruct H as [H|H].
      * apply Hm. apply (Hc1 key v H).
      * apply (Hc key v H).
Qed.

(** The classifier builder invents nothing and drops nothing: when the
    block is a dict, every entry of the map it returns is the flag or the
    float of a numeric probability that the classifier objects hold under
    that key, and every numeric probability they hold has its key in the
    map.  The classifier objects are those of ["highlevel"] when that is a
    dict, of the block itself otherwise. *)
Theorem ab_features_from_probabilities rt track :
  match acoustic_block track, extract_ab_features rt track with
  | Ok (JDict ab), Ok out =>
      let h := dict_get ab "highlevel" in
      let high := if is_dict h then h else JDict ab in
      (forall key v, out !! key = Some v ->
         (key = ab_flag /\ v = B64.one) \/
         probability_source rt (items high) key v) /\
      (forall key v, probability_source rt (items high) key v ->
         is_Some (out !! key))
  | Ok (JDict _), Raise _ => False
  | _, _ => True
  end.
Proof.
  destruct (acoustic_block track) as [ab|e] eqn:Hb; [|exact I].
  destruct ab as [| | | | | |ab];
    try (destruct (extract_ab_features rt track); exact I).
  unfold extract_ab_features. rewrite Hb. cbn [Py.bind is_dict negb py_get].
  set (high := if is_dict (dict_get ab "highlevel") then dict_get ab "highlevel"
               else JDict ab).
  destruct (fold_add_classifier rt (items high) ∅) as [o [Ho [Hs [_ Hc]]]].
  rewrite Ho. cbn [Py.bind]. cbv zeta. split.
  - intros key v Hv. apply lookup_insert_Some in Hv.
    destruct Hv as [[<- <-]|[_ Hv]]; [left; auto|].
    right. destruct (Hs key v Hv) as [H|H];
      [rewrite lookup_empty in H; discriminate|].
    exact H.
  - intros key v H. rewrite lookup_insert_is_Some.
    destruct (decide (ab_flag = key)); [left; assumption|right].
    split; [assumption|]. apply (Hc key v). exact H.
Qed.

(** The two shapes of [track_classified] are both sources: a class of a
    table and a value/probability pair. *)
Example probability_source_classified :
  probability_source plain_runtime
    [("mood_happy",
      JDict [("all", JDict [("happy", JFloat (B64.of_dec 75 (-2)));
                            ("not_happy", JFloat (B64.of_dec 25 (-2)))])]);
     ("danceability",
      JDict [("value", JStr "danceable");
             ("probability", JFloat (B64.of_dec 9 (-1)))])]
    "ab__danceability__danceable" (B64.of_dec 9 (-1)) /\
  probability_source plain_runtime
    [("mood_happy",
      JDict [("all", JDict [("happy", JFloat (B64.of_dec 75 (-2)));
                            ("not_happy", JFloat (B64.of_dec 25 (-2)))])])]
    "ab__mood_happy__happy" (B64.of_dec 75 (-2)).
Proof.
  split.
  - eexists. eexists. split; [right; left; reflexivity|].
    simpl. repeat split.
  - eexists. eexists. split; [left; reflexivity|].
    simpl. exists "happy". eexists. split; [left; reflexivity|]. split; reflexivity.
Qed.

Lemma mapM_first_failure {A B : Type} (f : A -> result B) (pre post : list A)
    (a : A) (e : exn) :
  Forall (fun x => is_ok (f x) = true) pre -> f a = Raise e ->
  mapM f (pre ++ a :: post) = Raise e.
Proof.
  intros Hpre Ha. induction pre as [|x pre IH]; simpl.
  - rewrite Ha. reflexivity.
  - inversion Hpre; subst. destruct (f x); [|discriminate]. simpl.
    rewrite (IH H2). reflexivity.
Qed.



(** The exception [main] raises for a catalog is that of the first track,
    in input order, that cannot be featurized; the tracks after it are not
    looked at and nothing is exported. *)
Theorem main_first_failure sk rt args (pre post : list json) (t : json) (e : exn) :
  Forall (fun x => is_ok (featurize_track rt x) = true) pre ->
  featurize_track rt t = Raise e ->
  main sk rt args (JList (pre ++ t :: post)) = Raise e.
Proof.
  intros Hpre Ht. unfold main.
  rewrite (mapM_first_failure _ pre post t e Hpre Ht). reflexivity.
Qed.

Lemma main_first_failure_witness :
  main toy_sklearn plain_runtime args_default
    (JList ([track_plain; track_classified] ++ track_brainz_list :: [JNull]))
  = Raise AttributeError.
Proof.
  apply (main_first_failure toy_sklearn plain_runtime args_default
           [track_plain; track_classified] [JNull] track_brainz_list AttributeError).
  - repeat constructor; vm_compute; reflexivity.
  - vm_compute. reflexivity.
Defined.

End FeatureMapFacts.

(** ** Loading, in any arithmetic *)

Module LoadingFacts.

Import SpotifyFeaturesDSP Samples PyFacts Loading MoreSamples.

Section AnyArithmetic.

Context {F : Type} {N : Num F}.
Variable io : Codecs F.

(** The downmix keeps the longer axis as time: a one-dimensional array is
    returned as it is, and a two-dimensional one gives as many samples as
    the larger of its two dimensions, so an array from [sf.read] with
    fewer frames than channels is averaged over its frames, not over its
    channels. *)
Theorem to_mono_length (y : ndarray F) :
  length (_to_mono y) =
  match y with
  | Array1 v => length v
  | Array2 ncols rows => Nat.max (length rows) ncols
  end /\
  match y with
  | Array1 v => _to_mono y = v
  | Array2 ncols rows =>
      ((length rows < ncols)%nat ->
       _to_mono y = map (fun j => np_mean (map (fun r => nth j r zero) rows))
                        (seq 0 ncols)) /\
      ((ncols <= length rows)%nat -> _to_mono y = map np_mean rows)
  end.
Proof.
  destruct y as [v|c rows]; [split; reflexivity|]. unfold _to_mono.
  destruct (length rows <? c)%nat eqn:E.
  - apply Nat.ltb_lt in E. unfold np_mean_axis0. split.
    + rewrite length_map, length_seq. lia.
    + split; [reflexivity|lia].
  - apply Nat.ltb_ge in E. unfold np_mean_axis1. split.
    + rewrite length_map. lia.
    + split; [lia|reflexivity].
Qed.

(** [_resample] never divides by zero.  For two different rates the
    factors handed to [resample_poly] are the target and the original rate
    divided by their greatest common divisor: they are coprime, they stand
    in the ratio of the two rates, and they are positive when the rates
    are.  The result is the cast of what [resample_poly] returns. *)
Theorem resample_factors_reduced (y : list F) (orig_sr target_sr : Z) :
  orig_sr <> target_sr ->
  exists up down,
    resample_factors orig_sr target_sr = Return (up, down) /\
    up * orig_sr = down * target_sr /\
    Z.gcd up down = 1 /\
    (0 < orig_sr -> 0 < target_sr -> 0 < up /\ 0 < down) /\
    _resample io y orig_sr target_sr =
      (let? r := resample_poly io y up down in Return (astype_float32 io r)).
Proof.
  intros Hne.
  set (g := Z.gcd orig_sr target_sr).
  assert (Hg : g <> 0).
  { unfold g. intros H0. apply Z.gcd_eq_0 in H0. lia. }
  assert (Hg0 : 0 < g)
    by (pose proof (Z.gcd_nonneg orig_sr target_sr); unfold g in *; lia).
  destruct (Z.gcd_divide_l orig_sr target_sr) as [a Ha].
  destruct (Z.gcd_divide_r orig_sr target_sr) as [b Hb].
  fold g in Ha, Hb.
  assert (Hup : target_sr / g = b) by (rewrite Hb; apply Z.div_mul; exact Hg).
  assert (Hdown : orig_sr / g = a) by (rewrite Ha; apply Z.div_mul; exact Hg).
  exists (target_sr / g), (orig_sr / g).
  assert (Hf : resample_factors orig_sr target_sr
               = Return (target_sr / g, orig_sr / g)).
  { unfold resample_factors, floordiv. fold g.
    replace (g =? 0) with false by (symmetry; apply Z.eqb_neq; exact Hg).
    reflexivity. }
  split; [exact Hf|]. split; [|split; [|split]].
  - rewrite Hup, Hdown. clearbody g. clear Hup Hdown Hf.
    subst orig_sr target_sr. ring.
  - apply Z.gcd_div_gcd; [exact Hg|]. unfold g. apply Z.gcd_comm.
  - intros Ho Ht. rewrite Hup, Hdown. split; nia.
  - unfold _resample.
    replace (orig_sr =? target_sr) with false
      by (symmetry; apply Z.eqb_neq; exact Hne).
    rewrite Hf. reflexivity.
Qed.

End AnyArithmetic.

(** From 44.1 kHz to 48 kHz the factors are 160 and 147. *)
Lemma resample_factors_reduced_witness :
  exists up down,
    resample_factors 44100 48000 = Return (up, down) /\
    up * 44100 = down * 48000 /\
    Z.gcd up down = 1 /\
    (0 < 44100 -> 0 < 48000 -> 0 < up /\ 0 < down) /\
    _resample (toy_codecs (N:=b64_num)) [B64.one] 44100 48000 =
      (let? r := resample_poly (toy_codecs (N:=b64_num)) [B64.one] up down in
       Return (astype_float32 toy_codecs r)).
Proof.
  apply (resample_factors_reduced (toy_codecs (N:=b64_num)) [B64.one] 44100 48000).
  discriminate.
Defined.

Example resample_factors_cd_to_dat :
  resample_factors 44100 48000 = Return (160, 147).
Proof. reflexivity. Qed.


End LoadingFacts.

(** ** The summary methods, in any arithmetic *)

Module SummaryFacts.

Import SpotifyFeaturesDSP Samples PyFacts DescriptorFacts Loading Summary MoreSamples.

Lemma and_then_return {A B : Type} (m : outcome A) (k : A -> outcome B) (b : B) :
  and_then m k = Return b <-> exists a, m = Return a /\ k a = Return b.
Proof.
  destruct m as [a|e]; simpl; split.
  - intros H. exists a. auto.
  - intros [a' [Ha Hk]]. inversion Ha. subst. exact Hk.
  - discriminate.
  - intros [a' [Ha _]]. discriminate.
Qed.

Lemma lift_return {A : Type} (m : result A) (a : A) :
  lift m = Return a <-> m = Ok a.
Proof.
  destruct m; simpl; split; intros H; inversion H; reflexivity.
Qed.

Lemma returns_default {A : Type} (m : outcome A) (d : A) :
  returns m = true -> m = Return (match m with Return a => a | Throw _ => d end).
Proof. destruct m; [reflexivity | discriminate]. Qed.

Section AnyArithmetic.

Context {F : Type} {N : Num F}.
Variable lib : Librosa F.
Variable an : Analysis F.
Variable np_log10 : F -> F.

Lemma time_signature_values (self : AudioFeatureExtractor F) ts conf :
  time_signature_guess lib self = Ok (ts, conf) -> ts = 3 \/ ts = 4.
Proof.
  unfold time_signature_guess.
  destruct (beat_track lib (onset_strength lib (self_y self) (self_sr self))
                       (self_sr self)) as [tempo beats].
  destruct (too_few_beats beats); [intros H; inversion H; auto|].
  destruct (np_std (beat_accents lib self) <? of_dec 1 (-6))%num;
    [intros H; inversion H; auto|].
  destruct (np_correlate_full (beat_accents lib self) (beat_accents lib self))
    as [ac|e]; cbn [Py.bind]; [|discriminate].
  destruct (length (skipn (length ac / 2) ac) <=? 5)%nat;
    [intros H; inversion H; auto|].
  match goal with |- context [if ?c then _ else _] => destruct c end;
    intros H; inversion H; auto.
Qed.

Lemma crest_factor_nonempty (self : AudioFeatureExtractor F) c :
  crest_factor_db np_log10 self = Ok c -> self_y self <> [].
Proof.
  unfold crest_factor_db, guarded_peak, peak. intros H Hy.
  rewrite Hy in H. discriminate.
Qed.

Lemma duration_ms_returns (self : AudioFeatureExtractor F) d :
  duration_ms self = Return d -> self_sr self <> 0.
Proof.
  unfold duration_ms. destruct (self_sr self =? 0) eqn:E; [discriminate|].
  intros _. apply Z.eqb_neq. exact E.
Qed.

(** The feature dict of [compute_all]: when the method returns, the dict
    has these seventeen keys in this order; ["key"] is an integer from 0 to
    11, ["mode"] is 0 or 1, ["time_signature_guess"] is 3 or 4, and every
    other entry is a float (["loudness_lufs"] is never [None]).  The
    method returns only for a signal with at least one sample and a
    sample rate other than 0. *)
Theorem compute_all_schema (self : AudioFeatureExtractor F) feats :
  compute_all lib an np_log10 self = Return feats ->
  map fst feats =
    ["duration_ms"; "tempo"; "loudness_lufs"; "loudness_rms_dbfs";
     "energy_proxy"; "key"; "mode"; "key_confidence";
     "time_signature_guess"; "time_signature_confidence";
     "crest_factor_db"; "harmonic_ratio";
     "spectral_centroid_mean"; "spectral_bandwidth_mean";
     "spectral_rolloff85_mean"; "spectral_flatness_mean"; "zcr_mean"] /\
  (exists k, In ("key", VInt k) feats /\ 0 <= k < 12) /\
  (exists m, In ("mode", VInt m) feats /\ (m = 0 \/ m = 1)) /\
  (exists ts, In ("time_signature_guess", VInt ts) feats /\ (ts = 3 \/ ts = 4)) /\
  (forall k v, In (k, v) feats ->
     k = "key" \/ k = "mode" \/ k = "time_signature_guess" \/
     exists f, v = VFloat f) /\
  self_y self <> [] /\ self_sr self <> 0.
Proof.
  unfold compute_all. intros H.
  apply and_then_return in H. destruct H as [[[key mode] key_conf] [Hk H]].
  apply lift_return in Hk.
  apply and_then_return in H. destruct H as [[ts ts_conf] [Ht H]].
  apply lift_return in Ht.
  apply and_then_return in H. destruct H as [duration [Hd H]].
  apply and_then_return in H. destruct H as [tempo [_ H]].
  apply and_then_return in H. destruct H as [lufs [Hl H]].
  apply and_then_return in H. destruct H as [energy [_ H]].
  apply and_then_return in H. destruct H as [crest [Hc H]].
  apply lift_return in Hc.
  apply and_then_return in H. destruct H as [spectral [Hs H]].
  unfold spectral_summary in Hs.
  apply and_then_return in Hs. destruct Hs as [c1 [_ Hs]].
  apply and_then_return in Hs. destruct Hs as [c2 [_ Hs]].
  apply and_then_return in Hs. destruct Hs as [c3 [_ Hs]].
  apply and_then_return in Hs. destruct Hs as [c4 [_ Hs]].
  apply and_then_return in Hs. destruct Hs as [c5 [_ Hs]].
  inversion Hs. subst spectral. clear Hs.
  assert (Hlufs : exists l, lufs = Some l).
  { unfold loudness_lufs in Hl. cbn [pyln_is_None] in Hl.
    apply and_then_return in Hl. destruct Hl as [l [_ Hl]]. inversion Hl. eauto. }
  destruct Hlufs as [l ->].
  destruct (key_and_mode_returns lib self)
    as [kM [cM [km [cm [_ [_ [HkM [Hkm Hkey]]]]]]]].
  rewrite Hkey in Hk. inversion Hk as [Hpick]. clear Hk.
  assert (Hrange : (key < 12)%nat /\ (mode = 0 \/ mode = 1)).
  { unfold pick_mode in Hpick.
    destruct (cM >=? cm)%num; inversion Hpick; subst; auto. }
  destruct Hrange as [Hkey12 Hmode].
  pose proof (time_signature_values self ts ts_conf Ht) as Hts.
  inversion H. subst feats. clear H.
  cbn [map fst snd dict_update_items fold_left dict_set String.eqb Ascii.eqb Bool.eqb].
  split; [reflexivity|].
  split. { exists (Z.of_nat key). split; [simpl; tauto|lia]. }
  split. { exists mode. split; [simpl; tauto|exact Hmode]. }
  split. { exists ts. split; [simpl; tauto|exact Hts]. }
  split.
  { intros k v Hin. simpl in Hin.
    repeat (destruct Hin as [Hin|Hin];
            [inversion Hin; subst; eauto 10|]).
    contradiction. }
  split; [exact (crest_factor_nonempty self crest Hc)
         |exact (duration_ms_returns self duration Hd)].
Qed.

End AnyArithmetic.

Lemma silence_features_ok :
  compute_all (N:=b64_num) silence_librosa toy_analysis (fun x => x) silence
  = Return silence_features.
Proof. apply returns_default. vm_compute. reflexivity. Qed.

Lemma compute_all_schema_witness :
  map fst silence_features =
    ["duration_ms"; "tempo"; "loudness_lufs"; "loudness_rms_dbfs";
     "energy_proxy"; "key"; "mode"; "key_confidence";
     "time_signature_guess"; "time_signature_confidence";
     "crest_factor_db"; "harmonic_ratio";
     "spectral_centroid_mean"; "spectral_bandwidth_mean";
     "spectral_rolloff85_mean"; "spectral_flatness_mean"; "zcr_mean"] /\
  (exists k, In ("key", VInt k) silence_features /\ 0 <= k < 12) /\
  (exists m, In ("mode", VInt m) silence_features /\ (m = 0 \/ m = 1)) /\
  (exists ts, In ("time_signature_guess", VInt ts) silence_features /\
     (ts = 3 \/ ts = 4)) /\
  (forall k v, In (k, v) silence_features ->
     k = "key" \/ k = "mode" \/ k = "time_signature_guess" \/
     exists f, v = VFloat f) /\
  self_y (silence (N:=b64_num)) <> [] /\ self_sr (silence (N:=b64_num)) <> 0.
Proof.
  apply (compute_all_schema silence_librosa toy_analysis (fun x => x) silence).
  exact silence_features_ok.
Defined.

(** An empty signal has no features: the peak raises. *)
Example compute_all_empty_signal :
  compute_all (N:=b64_num) silence_librosa toy_analysis (fun x => x)
    {| self_y := []; self_sr := 22050 |}
  = Throw (Builtin ValueError).
Proof. vm_compute. reflexivity. Qed.

End SummaryFacts.

(** ** Loading and the summary methods in exact arithmetic *)

Module ExactSummaryFacts.

Import SpotifyFeaturesDSP Samples PyFacts DescriptorFacts ExactFacts.
Import Loading Summary MoreSamples LoadingFacts.

Local Open Scope R_scope.

Lemma exact_np_sum_ge (l : list R) (m : R) :
  Forall (fun x => m <= x) l -> INR (length l) * m <= np_sum l.
Proof.
  induction l as [|x t IH]; intros H.
  - rewrite exact_np_sum_nil. simpl. lra.
  - rewrite exact_np_sum_cons. inversion H; subst.
    specialize (IH H3). rewrite length_cons, S_INR. lra.
Qed.

Lemma exact_np_mean_ge (l : list R) (m : R) :
  l <> [] -> Forall (fun x => m <= x) l -> m <= np_mean l.
Proof.
  intros Hne H. rewrite exact_np_mean_eq.
  assert (Hn : 0 < INR (length l)).
  { apply lt_0_INR. destruct l; [congruence|simpl; lia]. }
  apply Rmult_le_reg_r with (INR (length l)); [exact Hn|].
  unfold Rdiv. rewrite Rmult_assoc, Rinv_l by lra. rewrite Rmult_1_r.
  rewrite Rmult_comm. apply exact_np_sum_ge. exact H.
Qed.

Lemma exact_np_mean_between (l : list R) (lo hi : R) :
  l <> [] -> Forall (fun x => lo <= x <= hi) l -> lo <= np_mean l <= hi.
Proof.
  intros Hne H. split.
  - apply exact_np_mean_ge; [exact Hne|].
    eapply Forall_impl; [exact H|]. simpl. intros; lra.
  - apply exact_np_mean_le; [exact Hne|].
    eapply Forall_impl; [exact H|]. simpl. intros; lra.
Qed.

(** In exact arithmetic the downmix stays within the range of the
    samples: for a well-shaped array with at least one frame and one
    channel, every mono sample lies between the bounds of the input
    samples. *)
Theorem to_mono_exact_bounds (y : ndarray R) (lo hi : R) :
  well_shaped y ->
  match y with
  | Array1 v => Forall (fun x => lo <= x <= hi) v
  | Array2 ncols rows =>
      (0 < ncols)%nat /\ rows <> [] /\
      Forall (Forall (fun x => lo <= x <= hi)) rows
  end ->
  Forall (fun x => lo <= x <= hi) (_to_mono y).
Proof.
  destruct y as [v|c rows]; simpl well_shaped; intros Hw H; [exact H|].
  destruct H as [Hc [Hne Hb]]. unfold _to_mono.
  destruct (length rows <? c)%nat.
  - unfold np_mean_axis0. apply Forall_forall. intros x Hx.
    apply list_elem_of_In in Hx. apply in_map_iff in Hx. destruct Hx as [j [<- Hj]].
    apply in_seq in Hj.
    apply exact_np_mean_between.
    + destruct rows; [congruence|discriminate].
    + apply Forall_forall. intros v Hv.
      apply list_elem_of_In in Hv. apply in_map_iff in Hv.
      destruct Hv as [r [<- Hr]].
      rewrite Forall_forall in Hw, Hb. apply list_elem_of_In in Hr.
      specialize (Hw r Hr). specialize (Hb r Hr).
      rewrite Forall_forall in Hb. apply Hb. apply list_elem_of_In.
      apply nth_In. lia.
  - unfold np_mean_axis1. apply Forall_forall. intros x Hx.
    apply list_elem_of_In in Hx. apply in_map_iff in Hx. destruct Hx as [r [<- Hr]].
    rewrite Forall_forall in Hw, Hb. apply list_elem_of_In in Hr.
    apply exact_np_mean_between.
    + specialize (Hw r Hr). destruct r; [simpl in Hw; lia|discriminate].
    + apply Hb. exact Hr.
Qed.

Lemma to_mono_exact_bounds_witness :
  Forall (fun x => 0 <= x <= 1) (_to_mono (stereo_frames (N:=exact_num))).
Proof.
  apply (to_mono_exact_bounds stereo_frames 0 1).
  - repeat constructor.
  - split; [lia|]. split; [discriminate|].
    repeat constructor; simpl; lra.
Defined.

(** The largest value of a fold is one of the values. *)
Lemma exact_fold_maximum_in (t : list R) (x : R) :
  In (fold_left np_maximum t x) (x :: t).
Proof.
  revert x. induction t as [|v t IH]; intros x; simpl.
  - left. reflexivity.
  - destruct (IH (np_maximum x v)) as [H|H].
    + rewrite <- H. rewrite exact_np_maximum. unfold Rmax.
      destruct (Rle_dec x v); [right; left|left]; reflexivity.
    + right. right. exact H.
Qed.

(** [peak] raises [ValueError] on an empty signal; on any other it
    returns, in exact arithmetic, the largest absolute value of a sample:
    a number that is at least 0, is the absolute value of one of the
    samples, and bounds them all. *)
Theorem peak_exact (self : AudioFeatureExtractor R) :
  match self_y self with
  | [] => peak self = Raise ValueError
  | _ :: _ =>
      exists M, peak self = Ok M /\ 0 <= M /\
        (exists x, In x (self_y self) /\ M = Rabs x) /\
        Forall (fun x => Rabs x <= M) (self_y self)
  end.
Proof.
  unfold peak. destruct (self_y self) as [|x t]; [reflexivity|].
  set (M := fold_left np_maximum (map f_abs t) (f_abs x)).
  exists M. split; [reflexivity|].
  destruct (exact_fold_maximum (map f_abs t) (f_abs x)) as [H1 H2]. fold M in H1, H2.
  pose proof (exact_fold_maximum_in (map f_abs t) (f_abs x)) as Hin. fold M in Hin.
  clearbody M. change (f_abs x) with (Rabs x) in *.
  split; [|split].
  - pose proof (Rabs_pos x). lra.
  - destruct Hin as [Hin|Hin].
    + exists x. split; [left; reflexivity|]. symmetry. exact Hin.
    + apply in_map_iff in Hin. destruct Hin as [y [Hy Hin]].
      exists y. split; [right; exact Hin|]. symmetry. exact Hy.
  - constructor; [exact H1|].
    rewrite Forall_forall in H2. apply Forall_forall. intros y Hy.
    apply H2. apply list_elem_of_In. apply in_map. apply list_elem_of_In. exact Hy.
Qed.

Lemma exact_log10_eps12 : Rlog10 (eps12 (N:=exact_num)) = -12.
Proof.
  rewrite exact_eps12_eq. unfold Rlog10.
  replace (1 / 1000000000000) with (/ (10 ^ 12)) by (simpl; lra).
  rewrite ln_Rinv by (apply pow_lt; lra).
  rewrite ln_pow by lra. simpl INR.
  pose proof exact_ln10_pos. field. lra.
Qed.

Lemma exact_log10_le (x y : R) : 0 < x -> x <= y -> Rlog10 x <= Rlog10 y.
Proof.
  intros Hx Hxy. unfold Rlog10. apply Rmult_le_compat_r.
  - left. apply Rinv_0_lt_compat, exact_ln10_pos.
  - destruct Hxy as [Hlt| ->]; [left; apply ln_increasing; assumption|lra].
Qed.

Lemma exact_log10_1 : Rlog10 1 = 0.
Proof. unfold Rlog10. rewrite ln_1. unfold Rdiv. apply Rmult_0_l. Qed.

Lemma exact_log10_div (p r : R) :
  0 < p -> 0 < r -> Rlog10 (p / r) = Rlog10 p - Rlog10 r.
Proof.
  intros Hp Hr. unfold Rlog10. change (p / r) with (p * / r).
  rewrite ln_mult by (try apply Rinv_0_lt_compat; assumption).
  rewrite ln_Rinv by assumption. unfold Rdiv. ring.
Qed.

Lemma exact_guarded_rms (self : AudioFeatureExtractor R) :
  guarded_rms self
  = Rmax (sqrt (np_mean (np_square (self_y self)))) (eps12 (N:=exact_num)).
Proof. unfold guarded_rms. rewrite exact_py_max. reflexivity. Qed.

(** The first two lines of [rms_dbfs] are those of [crest_factor_db]. *)
Lemma exact_rms_dbfs (self : AudioFeatureExtractor R) :
  rms_dbfs Rlog10 self = 20 * Rlog10 (guarded_rms self).
Proof. unfold rms_dbfs, guarded_rms. rewrite exact_twenty. reflexivity. Qed.

Lemma exact_mean_square_zeros (y : list R) :
  Forall (fun x => x = 0) y -> np_mean (np_square y) = 0.
Proof.
  intros H. rewrite exact_np_mean_eq.
  assert (Hs : np_sum (np_square y) = 0).
  { induction y as [|x t IH]; [reflexivity|].
    inversion H; subst. simpl np_square. rewrite exact_np_sum_cons.
    rewrite IH by assumption. simpl. lra. }
  rewrite Hs. unfold Rdiv. apply Rmult_0_l.
Qed.

(** In exact arithmetic the RMS level of a signal with at least one
    sample is never below -240 dB, the level of the guard 1e-12; it is at
    most 0 dB when every sample lies in [-1, 1]; and it is exactly -240 dB
    on silence. *)
Theorem rms_dbfs_exact_bounds (self : AudioFeatureExtractor R) :
  self_y self <> [] ->
  -240 <= rms_dbfs Rlog10 self /\
  (Forall (fun x => Rabs x <= 1) (self_y self) -> rms_dbfs Rlog10 self <= 0) /\
  (Forall (fun x => x = 0) (self_y self) -> rms_dbfs Rlog10 self = -240).
Proof.
  intros Hne. rewrite exact_rms_dbfs, exact_guarded_rms.
  pose proof exact_eps12_pos as He. pose proof exact_log10_eps12 as Hl.
  set (r0 := sqrt (np_mean (np_square (self_y self)))).
  assert (Hr0 : 0 <= r0) by apply sqrt_pos.
  split; [|split].
  - assert (H : Rlog10 (eps12 (N:=exact_num))
                <= Rlog10 (Rmax r0 (eps12 (N:=exact_num)))).
    { apply exact_log10_le; [exact He|apply Rmax_r]. }
    lra.
  - intros Hb.
    assert (Hr1 : r0 <= 1).
    { unfold r0. apply exact_rms_le_peak; [exact Hne|].
      unfold np_abs. apply Forall_forall. intros v Hv.
      apply list_elem_of_In in Hv. apply in_map_iff in Hv.
      destruct Hv as [x [<- Hx]].
      rewrite Forall_forall in Hb. apply Hb. apply list_elem_of_In. exact Hx. }
    assert (H : Rlog10 (Rmax r0 (eps12 (N:=exact_num))) <= Rlog10 1).
    { apply exact_log10_le.
      - pose proof (Rmax_r r0 (eps12 (N:=exact_num))). lra.
      - apply Rmax_lub; [exact Hr1|]. rewrite exact_eps12_eq. lra. }
    rewrite exact_log10_1 in H. lra.
  - intros Hz. unfold r0. rewrite (exact_mean_square_zeros _ Hz), sqrt_0.
    rewrite Rmax_right by lra. rewrite Hl. lra.
Qed.

Lemma rms_dbfs_exact_bounds_witness :
  -240 <= rms_dbfs Rlog10 dc03 /\
  (Forall (fun x => Rabs x <= 1) (self_y dc03) -> rms_dbfs Rlog10 dc03 <= 0) /\
  (Forall (fun x => x = 0) (self_y dc03) -> rms_dbfs Rlog10 dc03 = -240).
Proof. apply (rms_dbfs_exact_bounds dc03). discriminate. Defined.

(** In exact arithmetic the crest factor of a signal with at least one
    sample is the level of its guarded peak minus its RMS level:
    [crest_factor_db = 20 log10(max(peak, 1e-12)) - rms_dbfs]. *)
Theorem crest_is_peak_minus_rms (self : AudioFeatureExtractor R) :
  self_y self <> [] ->
  exists pk c,
    peak self = Ok pk /\
    crest_factor_db Rlog10 self = Ok c /\
    c = 20 * Rlog10 (Rmax pk (1 / 1000000000000)) - rms_dbfs Rlog10 self.
Proof.
  intros Hne. unfold crest_factor_db, guarded_peak.
  assert (Hp : exists pk, peak self = Ok pk).
  { unfold peak. destruct (self_y self); [congruence|]. eexists. reflexivity. }
  destruct Hp as [pk Hp]. rewrite Hp. cbn [Py.bind].
  exists pk. eexists. split; [reflexivity|]. split; [reflexivity|].
  rewrite exact_rms_dbfs, exact_twenty, exact_py_max, <- exact_eps12_eq.
  pose proof exact_eps12_pos as He.
  change (f_div (Rmax pk eps12) (guarded_rms self))
    with (Rmax pk eps12 / guarded_rms self).
  change (f_mul 20 (Rlog10 (Rmax pk eps12 / guarded_rms self)))
    with (20 * Rlog10 (Rmax pk eps12 / guarded_rms self)).
  rewrite exact_log10_div.
  - ring.
  - pose proof (Rmax_r pk (eps12 (N:=exact_num))). lra.
  - rewrite exact_guarded_rms.
    pose proof (Rmax_r (sqrt (np_mean (np_square (self_y self))))
                       (eps12 (N:=exact_num))). lra.
Qed.

Lemma crest_is_peak_minus_rms_witness :
  exists pk c,
    peak (N:=exact_num) dc03 = Ok pk /\
    crest_factor_db Rlog10 dc03 = Ok c /\
    c = 20 * Rlog10 (Rmax pk (1 / 1000000000000)) - rms_dbfs Rlog10 dc03.
Proof. apply (crest_is_peak_minus_rms dc03). discriminate. Defined.

Lemma confidence_bounds (a b e : R) :
  0 < e -> b <= a -> 0 <= (a - b) / (Rabs a + Rabs b + e) < 1 /\
  (b < a -> 0 < (a - b) / (Rabs a + Rabs b + e)).
Proof.
  intros He Hab.
  pose proof (Rabs_pos a). pose proof (Rabs_pos b).
  assert (Hd : 0 < Rabs a + Rabs b + e) by lra.
  assert (Hn : a - b <= Rabs a + Rabs b).
  { pose proof (Rle_abs a). pose proof (Rle_abs (- b)). rewrite Rabs_Ropp in *. lra. }
  split; [split|].
  - apply Rmult_le_pos; [lra|]. left. apply Rinv_0_lt_compat. exact Hd.
  - apply Rmult_lt_reg_r with (Rabs a + Rabs b + e); [exact Hd|].
    unfold Rdiv. rewrite Rmult_assoc, Rinv_l by lra. lra.
  - intros Hlt. apply Rmult_lt_0_compat; [lra|]. apply Rinv_0_lt_compat. exact Hd.
Qed.

Lemma exact_np_clip (x lo hi : R) :
  np_clip x lo hi = Rmin (Rmax x lo) hi.
Proof.
  unfold np_clip. rewrite exact_is_nan.
  assert (Ht : (if (x >? lo)%num then x else lo) = Rmax x lo).
  { simpl. unfold Rmax.
    destruct (Rltb lo x) eqn:E; destruct (Rle_dec x lo); try reflexivity.
    - apply Rltb_true in E. lra.
    - apply Rltb_false in E. lra. }
  rewrite Ht, exact_is_nan. simpl. unfold Rmin.
  destruct (Rltb (Rmax x lo) hi) eqn:E; destruct (Rle_dec (Rmax x lo) hi);
    try reflexivity.
  - apply Rltb_true in E. lra.
  - apply Rltb_false in E. lra.
Qed.

Section Exact.

Variable lib : Librosa R.
Variable an : Analysis R.

(** In exact arithmetic the confidence of [time_signature_guess] lies in
    the half-open interval from 0 to 1, and a guess of 3 comes with a
    confidence above 0. *)
Theorem time_signature_confidence_exact (self : AudioFeatureExtractor R) :
  match time_signature_guess lib self with
  | Ok (ts, conf) => 0 <= conf < 1 /\ (ts = 3%Z -> 0 < conf)
  | Raise _ => True
  end.
Proof.
  unfold time_signature_guess.
  destruct (beat_track lib (onset_strength lib (self_y self) (self_sr self))
                       (self_sr self)) as [tempo beats].
  assert (Hdef : 0 <= of_dec (Num:=exact_num) 0 0 < 1 /\
                 (4%Z = 3%Z -> 0 < of_dec (Num:=exact_num) 0 0)).
  { assert (H0 : of_dec (Num:=exact_num) 0 0 = 0) by reflexivity.
    rewrite H0. split; [lra|discriminate]. }
  destruct (too_few_beats beats); [exact Hdef|].
  destruct (np_std (beat_accents lib self) <? of_dec 1 (-6))%num; [exact Hdef|].
  destruct (np_correlate_full (beat_accents lib self) (beat_accents lib self))
    as [ac|e]; cbn [Py.bind]; [|exact I].
  destruct (length (skipn (length ac / 2) ac) <=? 5)%nat; [exact Hdef|].
  set (lag3 := if (3 <? length (skipn (length ac / 2) ac))%nat
               then nth 3 (skipn (length ac / 2) ac) zero else of_dec 0 0).
  set (lag4 := if (4 <? length (skipn (length ac / 2) ac))%nat
               then nth 4 (skipn (length ac / 2) ac) zero else of_dec 0 0).
  clearbody lag3 lag4. pose proof exact_eps12_pos as He.
  change (f_lt lag4 lag3) with (Rltb lag4 lag3).
  destruct (Rltb lag4 lag3) eqn:E.
  - apply Rltb_true in E.
    destruct (confidence_bounds lag3 lag4 eps12 He) as [H1 H2]; [lra|].
    split; [exact H1|]. intros _. apply H2. exact E.
  - apply Rltb_false in E.
    destruct (confidence_bounds lag4 lag3 eps12 He E) as [H1 H2].
    split; [|discriminate].
    replace (Rabs lag4 + Rabs lag3 + eps12)
      with (Rabs lag3 + Rabs lag4 + eps12) in H1 by ring.
    exact H1.
Qed.

(** In exact arithmetic the energy proxy is the mean frame RMS mapped
    linearly from [0.02, 0.20] onto [0, 1] and clipped: it lies in [0, 1],
    is 0 up to an RMS of 0.02 and 1 from an RMS of 0.20 on.  It raises
    what [librosa.feature.rms] raises. *)
Theorem energy_proxy_exact (self : AudioFeatureExtractor R) :
  match rms an self 2048 512 with
  | Return r =>
      exists e, energy_proxy_0_1 an self = Return e /\
        0 <= e <= 1 /\
        (r <= 2 / 100 -> e = 0) /\
        (20 / 100 <= r -> e = 1) /\
        (2 / 100 <= r <= 20 / 100 -> e = (r - 2 / 100) / (18 / 100))
  | Throw err => energy_proxy_0_1 an self = Throw err
  end.
Proof.
  unfold energy_proxy_0_1.
  destruct (rms an self 2048 512) as [r|err]; [|reflexivity].
  cbn [and_then]. eexists. split; [reflexivity|].
  rewrite exact_np_clip.
  assert (H0 : of_dec (Num:=exact_num) 0 0 = 0) by reflexivity.
  assert (H1 : of_dec (Num:=exact_num) 1 0 = 1) by reflexivity.
  assert (H2 : of_dec (Num:=exact_num) 2 (-2) = 2 / 100) by reflexivity.
  assert (H20 : of_dec (Num:=exact_num) 20 (-2) = 20 / 100) by reflexivity.
  rewrite H0, H1, H2, H20.
  change (f_div (f_sub r (2 / 100)) (f_sub (20 / 100) (2 / 100)))
    with ((r - 2 / 100) / (20 / 100 - 2 / 100)).
  replace (20 / 100 - 2 / 100) with (18 / 100) by lra.
  set (x := (r - 2 / 100) / (18 / 100)).
  assert (Hx : x = (r - 2 / 100) * (100 / 18)) by (unfold x; field).
  clearbody x.
  destruct (Rle_dec x 0) as [Hx0|Hx0].
  - rewrite (Rmax_right x 0) by lra. rewrite Rmin_left by lra.
    repeat split; intros; lra.
  - rewrite (Rmax_left x 0) by lra.
    destruct (Rle_dec x 1) as [Hx1|Hx1].
    + rewrite Rmin_left by lra. repeat split; intros; lra.
    + rewrite Rmin_right by lra. repeat split; intros; lra.
Qed.

End Exact.

Section ExactLoading.

Variable io : Codecs R.


End ExactLoading.


End ExactSummaryFacts.

(** ** The energy proxy in binary64 *)

Module B64SummaryFacts.

Import SpotifyFeaturesDSP Samples PyFacts DescriptorFacts B64Facts.
Import Loading Summary MoreSamples.

Lemma has_sign_not_nan (s : bool) (x : B64.float) :
  B64.has_sign s x -> B64.is_nan x = false.
Proof.
  destruct x; simpl; intros H; [reflexivity|reflexivity|contradiction|reflexivity].
Qed.

(** Subtracting a finite number gives a NaN only from a NaN. *)
Lemma sub_finite_nan (x : B64.float) (s : bool) (m : positive) (e : Z) :
  B64.is_nan (B64.sub x (S754_finite s m e)) = B64.is_nan x.
Proof.
  destruct x as [sx|sx| |sx mx ex]; try reflexivity.
  unfold B64.sub, SFsub.
  eapply has_sign_not_nan. apply binary_normalize_sign.
Qed.

Lemma div_core_nonneg (m1 : positive) (e1 : Z) (m2 : positive) (e2 : Z) :
  0 <= fst (fst (SFdiv_core_binary B64.prec B64.emax (Zpos m1) e1 (Zpos m2) e2)).
Proof.
  unfold SFdiv_core_binary.
  set (s := e1 - e2 - _).
  set (m' := match s with
             | 0 => Zpos m1
             | Zpos _ => Z.shiftl (Zpos m1) s
             | Zneg _ => 0
             end).
  assert (Hm : 0 <= m').
  { unfold m'. destruct s; try lia. apply Z.shiftl_nonneg. lia. }
  pose proof (Z.div_eucl_eq m' (Zpos m2) ltac:(lia)) as Heq.
  pose proof (Z.mod_pos_bound m' (Zpos m2) ltac:(lia)) as Hr.
  unfold Z.modulo in Hr.
  change IntDef.Z.div_eucl with Z.div_eucl.
  destruct (Z.div_eucl m' (Zpos m2)) as [q r]. simpl. nia.
Qed.

(** Dividing by a finite number other than zero gives a NaN only from a
    NaN. *)
Lemma div_finite_nan (x : B64.float) (s : bool) (m : positive) (e : Z) :
  B64.is_nan (B64.div x (S754_finite s m e)) = B64.is_nan x.
Proof.
  destruct x as [sx|sx| |sx mx ex]; try reflexivity.
  unfold B64.div, SFdiv.
  pose proof (div_core_nonneg mx ex m e) as H.
  destruct (SFdiv_core_binary B64.prec B64.emax (Zpos mx) ex (Zpos m) e)
    as [[mz ez] lz].
  simpl in H. eapply has_sign_not_nan. apply binary_round_aux_sign. exact H.
Qed.

Lemma b64_compare_refl (x : B64.float) :
  B64.is_nan x = false -> SFcompare x x = Some Eq.
Proof.
  destruct x as [s|s| |s m e]; simpl; try discriminate; intros _; try reflexivity.
  - destruct s; reflexivity.
  - rewrite Z.compare_refl, Pos.compare_cont_refl. destruct s; reflexivity.
Qed.

(** The test [x <= x] of the array code is the NaN test. *)
Lemma b64_is_nan (x : B64.float) : Numpy.is_nan (N:=b64_num) x = B64.is_nan x.
Proof.
  unfold Numpy.is_nan. simpl. unfold B64.leb, SFleb.
  destruct (B64.is_nan x) eqn:E.
  - destruct x; try discriminate. reflexivity.
  - rewrite (b64_compare_refl x E). reflexivity.
Qed.

Lemma ltb_leb (x y : B64.float) : B64.ltb x y = true -> B64.leb x y = true.
Proof.
  unfold B64.ltb, B64.leb, SFltb, SFleb.
  destruct (SFcompare x y) as [[| |]|]; try discriminate; reflexivity.
Qed.

(** [np.clip(x, 0.0, 1.0)] in binary64: a NaN stays a NaN; any other
    value ends between 0 and 1. *)
Lemma np_clip_unit_b64 (x : B64.float) :
  B64.is_nan (np_clip (N:=b64_num) x (of_dec 0 0) (of_dec 1 0)) = B64.is_nan x /\
  (B64.is_nan x = false ->
   B64.leb B64.zero (np_clip (N:=b64_num) x (of_dec 0 0) (of_dec 1 0)) = true /\
   B64.leb (np_clip (N:=b64_num) x (of_dec 0 0) (of_dec 1 0)) B64.one = true).
Proof.
  unfold np_clip. rewrite !b64_is_nan.
  change (of_dec (Num:=b64_num) 0 0) with B64.zero.
  change (of_dec (Num:=b64_num) 1 0) with B64.one.
  change (@f_lt B64.float b64_num) with B64.ltb.
  destruct (B64.is_nan x) eqn:Hx; cbv iota.
  - rewrite Hx. split; [exact Hx|discriminate].
  - destruct (B64.ltb B64.zero x) eqn:H0; cbv iota.
    + rewrite Hx.
      destruct (B64.ltb x B64.one) eqn:H1.
      * split; [exact Hx|]. intros _.
        split; [apply ltb_leb; exact H0|apply ltb_leb; exact H1].
      * split; [reflexivity|]. intros _. split; reflexivity.
    + change (B64.is_nan B64.zero) with false.
      change (B64.ltb B64.zero B64.one) with true. cbv iota.
      split; [reflexivity|]. intros _. split; reflexivity.
Qed.

Section B64.

Variable an : Analysis B64.float.

(** In binary64, as the program runs: the energy proxy is a NaN exactly
    when the mean frame RMS is a NaN, and otherwise it lies between 0.0
    and 1.0, also for an infinite mean.  It raises what
    [librosa.feature.rms] raises. *)
Theorem energy_proxy_unit_interval_b64 (self : AudioFeatureExtractor B64.float) :
  match rms an self 2048 512 with
  | Return r =>
      exists e, energy_proxy_0_1 an self = Return e /\
        B64.is_nan e = B64.is_nan r /\
        (B64.is_nan r = false ->
         B64.leb B64.zero e = true /\ B64.leb e B64.one = true)
  | Throw err => energy_proxy_0_1 an self = Throw err
  end.
Proof.
  unfold energy_proxy_0_1.
  destruct (rms an self 2048 512) as [r|err]; [|reflexivity].
  cbn [and_then]. eexists. split; [reflexivity|].
  set (x := ((r - of_dec 2 (-2)) / (of_dec 20 (-2) - of_dec 2 (-2)))%num).
  assert (Hx : B64.is_nan x = B64.is_nan r).
  { unfold x.
    change (@f_div B64.float b64_num) with B64.div.
    change (@f_sub B64.float b64_num) with B64.sub.
    assert (H1 : exists s m e, of_dec (Num:=b64_num) 2 (-2) = S754_finite s m e)
      by (vm_compute; eexists; eexists; eexists; reflexivity).
    assert (H2 : exists s m e,
               B64.sub (of_dec 20 (-2)) (of_dec 2 (-2)) = S754_finite s m e)
      by (vm_compute; eexists; eexists; eexists; reflexivity).
    destruct H2 as [s2 [m2 [e2 ->]]]. destruct H1 as [s1 [m1 [e1 ->]]].
    rewrite div_finite_nan, sub_finite_nan. reflexivity. }
  destruct (np_clip_unit_b64 x) as [Hn Hb].
  rewrite Hn, Hx. split; [reflexivity|]. rewrite <- Hx. exact Hb.
Qed.

End B64.

(** A mean frame RMS of 0.1 gives (0.1 - 0.02) / (0.20 - 0.02), a number
    strictly between 0 and 1. *)
Example energy_proxy_toy_b64 :
  match energy_proxy_0_1 (N:=b64_num) toy_analysis silence with
  | Return e => B64.ltb B64.zero e = true /\ B64.ltb e B64.one = true
  | Throw _ => False
  end.
Proof. vm_compute. split; reflexivity. Qed.

End B64SummaryFacts.

(** ** Transposing the chromagram, in exact arithmetic *)

Module TranspositionFacts.

Import SpotifyFeaturesDSP Samples MoreSamples PyFacts DescriptorFacts.
Import ExactFacts ExactSummaryFacts.

Local Open Scope R_scope.

(** Rotating the chroma profile by [j] places rotates the twelve
    correlations with a template by [j] places. *)
Lemma rotation_corrs_roll (c t : list R) (j : nat) :
  length c = 12%nat -> length t = 12%nat -> (j < 12)%nat ->
  forall corrs, rotation_corrs c t = Ok corrs ->
  rotation_corrs (np_roll c j) t = Ok (np_roll corrs j).
Proof.
  intros Hc Ht Hj corrs H.
  twelve c. twelve t.
  unfold rotation_corrs in *.
  cbn [seq mapM] in H. cbn in H.
  inversion H. subst corrs. clear H.
  do 12 (destruct j as [|j];
         [cbn; apply f_equal; repeat (apply f_equal2; [ring|]); reflexivity|]).
  lia.
Qed.

Lemma np_roll_lookup {A : Type} `{N : Num A} (l : list A) (j i : nat) :
  (j < length l)%nat -> (i < length l)%nat ->
  np_roll l j !! ((i + j) mod length l)%nat = l !! i.
Proof.
  intros Hj Hi. unfold np_roll.
  rewrite (Nat.mod_small j) by exact Hj.
  destruct (Nat.lt_ge_cases (i + j) (length l)) as [Hlt|Hge].
  - rewrite Nat.mod_small by exact Hlt.
    rewrite lookup_app_r by (rewrite length_skipn; lia).
    rewrite length_skipn.
    replace (i + j - (length l - (length l - j)))%nat with i by lia.
    apply lookup_take_lt. lia.
  - replace (i + j)%nat with ((i + j - length l) + 1 * length l)%nat by lia.
    rewrite Nat.Div0.mod_add. rewrite Nat.mod_small by lia.
    rewrite lookup_app_l by (rewrite length_skipn; lia).
    change (skipn (length l - j) l) with (drop (length l - j) l).
    rewrite lookup_drop. f_equal. lia.
Qed.

Lemma np_roll_in {A : Type} `{N : Num A} (l : list A) (j : nat) (x : A) :
  In x (np_roll l j) <-> In x l.
Proof.
  unfold np_roll. split; intros H.
  - apply in_app_iff in H.
    rewrite <- (firstn_skipn (length l - j mod length l) l).
    apply in_app_iff. tauto.
  - rewrite <- (firstn_skipn (length l - j mod length l) l) in H.
    apply in_app_iff in H. apply in_app_iff. tauto.
Qed.

Lemma exact_np_max_char (l : list R) (M : R) :
  np_max l = Ok M -> In M l /\ forall x, In x l -> x <= M.
Proof.
  destruct l as [|x t]; simpl; [discriminate|]. intros H. inversion H. subst M.
  split.
  - apply exact_fold_maximum_in.
  - destruct (exact_fold_maximum t x) as [H1 H2].
    intros y [<-|Hy]; [exact H1|].
    rewrite Forall_forall in H2. apply H2. apply list_elem_of_In. exact Hy.
Qed.

(** A strict maximum is where [np.argmax] and [np.max] find it. *)
Lemma exact_argmax_unique (l : list R) (k : nat) (M : R) :
  l !! k = Some M ->
  (forall i x, l !! i = Some x -> i <> k -> x < M) ->
  np_argmax l = Ok k /\ np_max l = Ok M.
Proof.
  intros Hk Hu.
  assert (Hne : l <> []) by (intros ->; destruct k; discriminate).
  destruct l as [|x t]; [congruence|].
  destruct (np_argmax (x :: t)) as [k0|] eqn:Ha; [|discriminate].
  destruct (np_max (x :: t)) as [M0|] eqn:Hm; [|discriminate].
  destruct (exact_argmax_max _ _ _ Ha Hm) as [Hk0 Hup].
  rewrite Forall_forall in Hup.
  assert (HM : M <= M0).
  { apply Hup. apply list_elem_of_lookup. exists k. exact Hk. }
  destruct (Nat.eq_dec k0 k) as [->|Hne0].
  - rewrite Hk in Hk0. inversion Hk0. subst. auto.
  - pose proof (Hu k0 M0 Hk0 Hne0). lra.
Qed.

(** The best rotation of a rotated profile: the best correlation is the
    same, and the rotation moves by [j] places when it is the only
    rotation that reaches the best correlation. *)
Lemma best_corr_roll (c t : list R) (j k : nat) (v : R) :
  length c = 12%nat -> length t = 12%nat -> (j < 12)%nat ->
  best_corr c t = Ok (k, v) ->
  (exists k', best_corr (np_roll c j) t = Ok (k', v)) /\
  ((forall corrs i x, rotation_corrs c t = Ok corrs ->
      corrs !! i = Some x -> i <> k -> x < v) ->
   best_corr (np_roll c j) t = Ok (((k + j) mod 12)%nat, v)).
Proof.
  intros Hc Ht Hj Hb.
  destruct (best_corr_total c t) as [corrs [k0 [v0 [Hr [Ha [Hm [Hb' Hk0]]]]]]];
    [congruence|].
  rewrite Hb in Hb'. inversion Hb'. subst k0 v0. clear Hb'.
  pose proof (rotation_corrs_roll c t j Hc Ht Hj corrs Hr) as Hr'.
  destruct (rotation_corrs_total c t) as [corrs0 [Hr0 Hlen]]; [congruence|].
  rewrite Hr in Hr0. inversion Hr0. subst corrs0. clear Hr0.
  destruct (exact_argmax_max _ _ _ Ha Hm) as [Hkv Hup].
  destruct (exact_np_max_char _ _ Hm) as [Hin Hle].
  assert (Hlen' : length (np_roll corrs j) = 12%nat)
    by (rewrite length_np_roll; exact Hlen).
  destruct (np_max (np_roll corrs j)) as [v'|] eqn:Hm';
    [|destruct (np_roll corrs j); discriminate].
  destruct (exact_np_max_char _ _ Hm') as [Hin' Hle'].
  assert (Hv : v' = v).
  { apply Rle_antisym.
    - apply Hle. apply (np_roll_in corrs j). exact Hin'.
    - apply Hle'. apply (np_roll_in corrs j). exact Hin. }
  subst v'.
  destruct (np_argmax (np_roll corrs j)) as [k'|] eqn:Ha';
    [|destruct (np_roll corrs j); discriminate].
  split.
  - exists k'. unfold best_corr. rewrite Hr'. cbn [Py.bind].
    rewrite Ha'. cbn [Py.bind]. rewrite Hm'. reflexivity.
  - intros Hu.
    assert (Hlook : np_roll corrs j !! ((k + j) mod length corrs)%nat = Some v).
    { rewrite np_roll_lookup by lia. exact Hkv. }
    rewrite Hlen in Hlook.
    destruct (exact_argmax_unique (np_roll corrs j) ((k + j) mod 12)%nat v Hlook)
      as [Ha2 _].
    { intros i x Hi Hne.
      assert (Hi12 : (i < 12)%nat).
      { apply lookup_lt_Some in Hi. lia. }
      pose proof (np_roll_lookup corrs j ((i + 12 - j) mod 12)%nat) as Hl.
      rewrite Hlen in Hl.
      assert (Hidx : (((i + 12 - j) mod 12 + j) mod 12 = i)%nat).
      { destruct (Nat.lt_ge_cases i j).
        - rewrite (Nat.mod_small (i + 12 - j)) by lia.
          replace (i + 12 - j + j)%nat with (i + 1 * 12)%nat by lia.
          rewrite Nat.Div0.mod_add. apply Nat.mod_small. lia.
        - replace (i + 12 - j)%nat with (i - j + 1 * 12)%nat by lia.
          rewrite Nat.Div0.mod_add. rewrite (Nat.mod_small (i - j)) by lia.
          replace (i - j + j)%nat with i by lia. apply Nat.mod_small. lia. }
      rewrite Hidx in Hl. rewrite Hl in Hi; [|lia|apply Nat.mod_upper_bound; lia].
      apply (Hu corrs _ x Hr Hi).
      intros Heq. apply Hne. rewrite <- Heq. symmetry. exact Hidx. }
    unfold best_corr. rewrite Hr'. cbn [Py.bind].
    rewrite Ha2. cbn [Py.bind]. rewrite Hm'. reflexivity.
Qed.

(** A chromagram whose rows are moved up by [j] semitones gives the
    chroma profile rotated by [j] places. *)
Lemma chroma_profile_roll (lib lib' : Librosa R) (self : AudioFeatureExtractor R) (j : nat) :
  (j < 12)%nat ->
  (forall i, (i < 12)%nat ->
     chroma_cqt lib' (self_y self) (self_sr self) ((i + j) mod 12)%nat
     = chroma_cqt lib (self_y self) (self_sr self) i) ->
  chroma_profile lib' self = np_roll (chroma_profile lib self) j.
Proof.
  intros Hj H.
  pose proof (H 0%nat ltac:(lia)) as H0. pose proof (H 1%nat ltac:(lia)) as H1.
  pose proof (H 2%nat ltac:(lia)) as H2. pose proof (H 3%nat ltac:(lia)) as H3.
  pose proof (H 4%nat ltac:(lia)) as H4. pose proof (H 5%nat ltac:(lia)) as H5.
  pose proof (H 6%nat ltac:(lia)) as H6. pose proof (H 7%nat ltac:(lia)) as H7.
  pose proof (H 8%nat ltac:(lia)) as H8. pose proof (H 9%nat ltac:(lia)) as H9.
  pose proof (H 10%nat ltac:(lia)) as H10. pose proof (H 11%nat ltac:(lia)) as H11.
  clear H. unfold chroma_profile. cbn [seq map].
  set (e := eps12 (N:=exact_num)).
  do 12 (destruct j as [|j];
         [cbn in H0, H1, H2, H3, H4, H5, H6, H7, H8, H9, H10, H11;
          rewrite H0, H1, H2, H3, H4, H5, H6, H7, H8, H9, H10, H11;
          clear H0 H1 H2 H3 H4 H5 H6 H7 H8 H9 H10 H11;
          repeat match goal with
                 | |- context [np_mean ?l] =>
                     let m := fresh "m" in set (m := np_mean l); clearbody m
                 end;
          cbn; repeat (apply f_equal2; [apply f_equal2; [reflexivity|ring]|]);
          reflexivity|]).
  lia.
Qed.

(** Transposition.  In exact arithmetic, when the rows of the chromagram
    are moved up by [j] semitones (row [(i + j) mod 12] of the new one is
    row [i] of the old one), [key_and_mode] returns the same mode and the
    same confidence, and the key moved up by [j] semitones modulo 12,
    provided the winning family reaches its best correlation at one
    rotation only. *)
Theorem key_and_mode_transposition (lib lib' : Librosa R)
    (self : AudioFeatureExtractor R) (j key : nat) (mode : Z) (conf : R) :
  (j < 12)%nat ->
  (forall i, (i < 12)%nat ->
     chroma_cqt lib' (self_y self) (self_sr self) ((i + j) mod 12)%nat
     = chroma_cqt lib (self_y self) (self_sr self) i) ->
  key_and_mode lib self = Ok (key, mode, conf) ->
  (forall corrs i x,
     rotation_corrs (chroma_profile lib self)
       (normalized (if (mode =? 1)%Z then major_profile else minor_profile))
       = Ok corrs ->
     corrs !! i = Some x -> i <> key -> x < nth key corrs 0) ->
  key_and_mode lib' self = Ok (((key + j) mod 12)%nat, mode, conf).
Proof.
  intros Hj Hrows Hk Hu.
  pose proof (chroma_profile_roll lib lib' self j Hj Hrows) as Hcp.
  destruct (key_and_mode_returns lib self)
    as [kM [cM [km [cm [HM [Hm [HkM [Hkm Hkey]]]]]]]].
  rewrite Hk in Hkey. inversion Hkey as [Hpick]. clear Hkey.
  assert (Hlc : length (chroma_profile lib self) = 12%nat)
    by apply length_chroma_profile.
  assert (HlM : length (normalized (major_profile (F:=R))) = 12%nat)
    by (rewrite length_normalized; reflexivity).
  assert (Hlm : length (normalized (minor_profile (F:=R))) = 12%nat)
    by (rewrite length_normalized; reflexivity).
  destruct (best_corr_roll _ _ j kM cM Hlc HlM Hj HM) as [[kM' HM'] HMu].
  destruct (best_corr_roll _ _ j km cm Hlc Hlm Hj Hm) as [[km' Hm'] Hmu].
  assert (Hnth : forall t k c,
            best_corr (chroma_profile lib self) t = Ok (k, c) ->
            length t = 12%nat ->
            forall corrs, rotation_corrs (chroma_profile lib self) t = Ok corrs ->
            nth k corrs 0 = c).
  { intros t k c Hb Hlt corrs Hr.
    destruct (best_corr_total (chroma_profile lib self) t)
      as [corrs0 [k0 [c0 [Hr0 [Ha [Hmx [Hb0 _]]]]]]]; [congruence|].
    rewrite Hb in Hb0. inversion Hb0. subst k0 c0.
    rewrite Hr in Hr0. inversion Hr0. subst corrs0.
    destruct (exact_argmax_max _ _ _ Ha Hmx) as [Hl _].
    apply nth_lookup_Some with (d := 0) in Hl. exact Hl. }
  unfold key_and_mode. rewrite Hcp.
  unfold pick_mode in Hpick. simpl in Hpick.
  destruct (Rleb cm cM) eqn:E; inversion Hpick; subst key mode conf; clear Hpick.
  - change ((1 =? 1)%Z) with true in Hu. cbv iota in Hu.
    rewrite HMu.
    + cbn [Py.bind]. rewrite Hm'. cbn [Py.bind]. unfold pick_mode. simpl.
      rewrite E. reflexivity.
    + intros corrs i x Hr Hi Hne.
      rewrite <- (Hnth _ kM cM HM HlM corrs Hr). apply (Hu corrs i x Hr Hi Hne).
  - change ((0 =? 1)%Z) with false in Hu. cbv iota in Hu.
    rewrite HM'. cbn [Py.bind]. rewrite Hmu.
    + cbn [Py.bind]. unfold pick_mode. simpl. rewrite E. reflexivity.
    + intros corrs i x Hr Hi Hne.
      rewrite <- (Hnth _ km cm Hm Hlm corrs Hr). apply (Hu corrs i x Hr Hi Hne).
Qed.

Lemma tone_profile :
  chroma_profile (tone_librosa 0) (dc03 (N:=exact_num)) =
  map (fun x => x / (1 + 1 / 1000000000000)) [1; 0; 0; 0; 0; 0; 0; 0; 0; 0; 0; 0].
Proof.
  unfold chroma_profile. cbn [seq map tone_librosa chroma_cqt Nat.eqb].
  rewrite exact_eps12_eq.
  assert (H1 : np_mean [of_int (Num:=exact_num) 1] = 1).
  { unfold np_mean, np_sum. simpl. field. }
  assert (H0 : np_mean [of_int (Num:=exact_num) 0] = 0).
  { unfold np_mean, np_sum. simpl. field. }
  rewrite H1, H0.
  replace (np_sum [1; 0; 0; 0; 0; 0; 0; 0; 0; 0; 0; 0]) with 1
    by (unfold np_sum; simpl; ring).
  reflexivity.
Qed.

Lemma major_normalized :
  normalized (major_profile (F:=R)) =
  map (fun m => IZR m / 100 / (4179 / 100))
      [635; 223; 348; 233; 438; 409; 252; 519; 239; 366; 229; 288]%Z.
Proof.
  unfold normalized, major_profile.
  assert (Hd : forall m, of_dec (Num:=exact_num) m (-2) = IZR m / 100) by reflexivity.
  cbn [map]. rewrite !Hd.
  assert (Hs : np_sum [635 / 100; 223 / 100; 348 / 100; 233 / 100; 438 / 100; 409 / 100;
                       252 / 100; 519 / 100; 239 / 100; 366 / 100; 229 / 100; 288 / 100]
               = 4179 / 100) by (unfold np_sum; simpl; lra).
  rewrite Hs. reflexivity.
Qed.

Lemma minor_normalized :
  normalized (minor_profile (F:=R)) =
  map (fun m => IZR m / 100 / (4451 / 100))
      [633; 268; 352; 538; 260; 353; 254; 475; 398; 269; 334; 317]%Z.
Proof.
  unfold normalized, minor_profile.
  assert (Hd : forall m, of_dec (Num:=exact_num) m (-2) = IZR m / 100) by reflexivity.
  cbn [map]. rewrite !Hd.
  assert (Hs : np_sum [633 / 100; 268 / 100; 352 / 100; 538 / 100; 260 / 100; 353 / 100;
                       254 / 100; 475 / 100; 398 / 100; 269 / 100; 334 / 100; 317 / 100]
               = 4451 / 100) by (unfold np_sum; simpl; lra).
  rewrite Hs. reflexivity.
Qed.

Lemma tone_major_corrs :
  exists corrs,
    rotation_corrs (chroma_profile (tone_librosa 0) (dc03 (N:=exact_num)))
      (normalized major_profile) = Ok corrs /\
    (forall i x, corrs !! i = Some x -> i <> 0%nat -> x < nth 0 corrs 0) /\
    nth 0 corrs 0 = 635 / 4179 / (1 + 1 / 1000000000000).
Proof.
  rewrite tone_profile, major_normalized.
  eexists. split; [unfold rotation_corrs; cbn; reflexivity|].
  split.
  - intros i x Hi Hne.
    do 12 (destruct i as [|i]; [try congruence; cbn in Hi; inversion Hi; subst x; cbn; lra|]).
    discriminate.
  - cbn. field.
Qed.

Lemma tone_minor_corrs :
  exists corrs,
    rotation_corrs (chroma_profile (tone_librosa 0) (dc03 (N:=exact_num)))
      (normalized minor_profile) = Ok corrs /\
    (forall x, In x corrs -> x < 635 / 4179 / (1 + 1 / 1000000000000)).
Proof.
  rewrite tone_profile, minor_normalized.
  eexists. split; [unfold rotation_corrs; cbn; reflexivity|].
  intros x Hx. cbn in Hx.
  repeat (destruct Hx as [<-|Hx]; [lra|]). contradiction.
Qed.

(** One tone on C is C major. *)
Lemma tone_key :
  exists conf, key_and_mode (tone_librosa 0) (dc03 (N:=exact_num)) = Ok (0%nat, 1%Z, conf).
Proof.
  destruct tone_major_corrs as [cM [HrM [HuM HvM]]].
  destruct tone_minor_corrs as [cm [Hrm Hum]].
  destruct (best_corr_total (chroma_profile (tone_librosa 0) (dc03 (N:=exact_num)))
              (normalized major_profile))
    as [c1 [k1 [v1 [Hr1 [Ha1 [Hm1 [Hb1 _]]]]]]];
    [rewrite length_chroma_profile, length_normalized; reflexivity|].
  destruct (best_corr_total (chroma_profile (tone_librosa 0) (dc03 (N:=exact_num)))
              (normalized minor_profile))
    as [c2 [k2 [v2 [Hr2 [Ha2 [Hm2 [Hb2 _]]]]]]];
    [rewrite length_chroma_profile, length_normalized; reflexivity|].
  rewrite HrM in Hr1. inversion Hr1. subst c1. clear Hr1.
  rewrite Hrm in Hr2. inversion Hr2. subst c2. clear Hr2.
  assert (H0 : cM !! 0%nat = Some (nth 0 cM 0%R)).
  { destruct cM; [discriminate|reflexivity]. }
  destruct (exact_argmax_unique cM 0 (nth 0 cM 0%R) H0 HuM) as [Hk Hv].
  rewrite Hk in Ha1. inversion Ha1. subst k1.
  rewrite Hv in Hm1. inversion Hm1. subst v1.
  destruct (exact_np_max_char _ _ Hm2) as [Hin _].
  pose proof (Hum v2 Hin) as Hlt. rewrite <- HvM in Hlt.
  unfold key_and_mode. rewrite Hb1. cbn [Py.bind]. rewrite Hb2. cbn [Py.bind].
  unfold pick_mode. simpl.
  replace (Rleb v2 (nth 0 cM 0%R)) with true
    by (symmetry; apply Rleb_true; lra).
  eexists. reflexivity.
Qed.

Lemma key_and_mode_transposition_witness :
  key_and_mode (tone_librosa 2) (dc03 (N:=exact_num)) =
  Ok (((0 + 2) mod 12)%nat, 1%Z,
      match key_and_mode (tone_librosa 0) (dc03 (N:=exact_num)) with
      | Ok (_, _, c) => c
      | Raise _ => 0%R
      end).
Proof.
  apply (key_and_mode_transposition (tone_librosa 0) (tone_librosa 2) dc03 2 0 1).
  - lia.
  - intros i Hi.
    do 12 (destruct i as [|i]; [reflexivity|]). lia.
  - destruct tone_key as [conf ->]. reflexivity.
  - intros corrs i x Hr Hi Hne.
    destruct tone_major_corrs as [cM [HrM [HuM _]]].
    change ((1 =? 1)%Z) with true in Hr. cbv iota in Hr.
    rewrite HrM in Hr. inversion Hr. subst corrs.
    apply (HuM i x Hi Hne).
Defined.

End TranspositionFacts.
